(** * telegram-manager: the relative-time parser and the [fetch] command

    A shallow embedding of [src/telegram_manager/main.py].

    The program's own code is [parse_relative_time_string] and the [fetch]
    command with its two callbacks.  Everything it calls from Python's
    standard library ([re], [datetime], [calendar]) and from [dateutil]
    is embedded here as far as the program uses it, so that the parser
    can be run on concrete inputs.  The embedding follows the libraries'
    Python sources and CPython 3.11 where its C implementation decides
    what is raised: the digit limit of [int], the conversion to a float
    in [copysign], the C [int] arguments of [datetime.replace].

    Conventions:
    - Python's [int] is [Z]; [divmod] with a positive divisor is
      [Z.div]/[Z.modulo] (both round towards minus infinity).
    - A [str] is a [string]; one [ascii] stands for one code point in
      0..255.  Code points above 255 are outside the model.
    - A call that can raise returns a [result]; the exception's class is
      kept, its message is not.
    - [datetime.now(timezone.utc)] is the argument [now] of the parser.
      The instant is aware and in UTC throughout, so [tzinfo] is not a
      field of the record.
    - The local time zone, which [astimezone()] asks the platform for,
      is the argument [local] of [fetch]. *)

From Stdlib Require Import ZArith List String Ascii Bool Lia Permutation.
Import ListNotations.

Open Scope Z_scope.

(* ================================================================== *)
(** * Exceptions *)

(** The exception classes that occur.  [CollaboratorError] stands for
    whatever the Telegram client raises (network, authorisation, rate
    limit); [calendar.IllegalMonthError] is a [ValueError]. *)
Inductive exception : Type :=
| OverflowError
| ValueError
| AttributeError
| CollaboratorError.

Inductive result (A : Type) : Type :=
| Ok (a : A)
| Raise (e : exception).

Arguments Ok {A} a.
Arguments Raise {A} e.

Definition bind {A B : Type} (r : result A) (k : A -> result B) : result B :=
  match r with
  | Ok a => k a
  | Raise e => Raise e
  end.

Notation "x <- r ;; k" := (bind r (fun x => k))
  (at level 61, r at next level, right associativity).

(* ================================================================== *)
(** * Python's [datetime] module *)

Definition MINYEAR : Z := 1.
Definition MAXYEAR : Z := 9999.
Definition _MAXORDINAL : Z := 3652059.

(** [_DAYS_IN_MONTH = [-1, 31, 28, 31, 30, 31, 30, 31, 31, 30, 31, 30, 31]] *)
Definition _DAYS_IN_MONTH (month : Z) : Z :=
  match month with
  | 1 => 31 | 2 => 28 | 3 => 31 | 4 => 30 | 5 => 31 | 6 => 30
  | 7 => 31 | 8 => 31 | 9 => 30 | 10 => 31 | 11 => 30 | 12 => 31
  | _ => -1
  end.

(** [_DAYS_BEFORE_MONTH]: the running sum of [_DAYS_IN_MONTH]. *)
Definition _DAYS_BEFORE_MONTH (month : Z) : Z :=
  match month with
  | 1 => 0 | 2 => 31 | 3 => 59 | 4 => 90 | 5 => 120 | 6 => 151
  | 7 => 181 | 8 => 212 | 9 => 243 | 10 => 273 | 11 => 304 | 12 => 334
  | _ => -1
  end.

(** [year % 4 == 0 and (year % 100 != 0 or year % 400 == 0)] *)
Definition _is_leap (year : Z) : bool :=
  (year mod 4 =? 0) && (negb (year mod 100 =? 0) || (year mod 400 =? 0)).

Definition _days_before_year (year : Z) : Z :=
  let y := year - 1 in
  y * 365 + y / 4 - y / 100 + y / 400.

Definition _days_in_month (year month : Z) : Z :=
  if (month =? 2) && _is_leap year then 29 else _DAYS_IN_MONTH month.

Definition _days_before_month (year month : Z) : Z :=
  _DAYS_BEFORE_MONTH month + (if (2 <? month) && _is_leap year then 1 else 0).

Definition _ymd2ord (year month day : Z) : Z :=
  _days_before_year year + _days_before_month year month + day.

Definition _DI400Y : Z := 146097.
Definition _DI100Y : Z := 36524.
Definition _DI4Y : Z := 1461.

(** [_ord2ymd(n)]: ordinal to (year, month, day), 0001-01-01 being day 1. *)
Definition _ord2ymd (n : Z) : Z * Z * Z :=
  let n := n - 1 in
  let n400 := n / _DI400Y in
  let n := n mod _DI400Y in
  let year := n400 * 400 + 1 in
  let n100 := n / _DI100Y in
  let n := n mod _DI100Y in
  let n4 := n / _DI4Y in
  let n := n mod _DI4Y in
  let n1 := n / 365 in
  let n := n mod 365 in
  let year := year + (n100 * 100 + n4 * 4 + n1) in
  if (n1 =? 4) || (n100 =? 4) then (year - 1, 12, 31)
  else
    let leapyear := (n1 =? 3) && (negb (n4 =? 24) || (n100 =? 3)) in
    let month := Z.shiftr (n + 50) 5 in
    let preceding :=
      _DAYS_BEFORE_MONTH month + (if (2 <? month) && leapyear then 1 else 0) in
    if n <? preceding then
      let month := month - 1 in
      let preceding :=
        preceding
        - (_DAYS_IN_MONTH month
           + (if (month =? 2) && leapyear then 1 else 0)) in
      (year, month, n - preceding + 1)
    else (year, month, n - preceding + 1).

(** ** [timedelta] *)

Record timedelta : Type := mktimedelta {
  td_days : Z;
  td_seconds : Z;
  td_microseconds : Z
}.

(** [timedelta(days, seconds, microseconds, minutes=, hours=, weeks=)] for
    [int] arguments: the constructor's carrying, then the range check on
    the day count.  ([milliseconds] is never passed by this program.) *)
Definition timedelta_new (days seconds microseconds minutes hours weeks : Z)
  : result timedelta :=
  let days := days + weeks * 7 in
  let seconds := seconds + (minutes * 60 + hours * 3600) in
  let d := days in
  let d := d + seconds / (24 * 3600) in
  let s := seconds mod (24 * 3600) in
  let seconds' := microseconds / 1000000 in
  let microseconds := microseconds mod 1000000 in
  let d := d + seconds' / (24 * 3600) in
  let s := s + seconds' mod (24 * 3600) in
  let seconds'' := microseconds / 1000000 in
  let us := microseconds mod 1000000 in
  let s := s + seconds'' in
  let d := d + s / (24 * 3600) in
  let s := s mod (24 * 3600) in
  if 999999999 <? Z.abs d then Raise OverflowError
  else Ok (mktimedelta d s us).

(** [timedelta.__neg__] *)
Definition timedelta_neg (self : timedelta) : result timedelta :=
  timedelta_new (- td_days self) (- td_seconds self) (- td_microseconds self)
                0 0 0.

(** [timedelta.__add__] *)
Definition timedelta_add (self other : timedelta) : result timedelta :=
  timedelta_new (td_days self + td_days other)
                (td_seconds self + td_seconds other)
                (td_microseconds self + td_microseconds other)
                0 0 0.

(** ** [datetime] *)

Record datetime : Type := mkdatetime {
  dt_year : Z;
  dt_month : Z;
  dt_day : Z;
  dt_hour : Z;
  dt_minute : Z;
  dt_second : Z;
  dt_microsecond : Z
}.

(** [_check_date_fields]: what the constructor demands of a date. *)
Definition _check_date_fields (year month day : Z) : result unit :=
  if negb ((MINYEAR <=? year) && (year <=? MAXYEAR)) then Raise ValueError
  else if negb ((1 <=? month) && (month <=? 12)) then Raise ValueError
  else if negb ((1 <=? day) && (day <=? _days_in_month year month))
       then Raise ValueError
  else Ok tt.

(** [datetime.toordinal] *)
Definition toordinal (self : datetime) : Z :=
  _ymd2ord (dt_year self) (dt_month self) (dt_day self).

(** [datetime.__add__(self, other: timedelta)] *)
Definition datetime_add (self : datetime) (other : timedelta)
  : result datetime :=
  delta <- timedelta_new (toordinal self) (dt_second self)
                         (dt_microsecond self) (dt_minute self)
                         (dt_hour self) 0 ;;
  delta <- timedelta_add delta other ;;
  let hour := td_seconds delta / 3600 in
  let rem := td_seconds delta mod 3600 in
  let minute := rem / 60 in
  let second := rem mod 60 in
  if (0 <? td_days delta) && (td_days delta <=? _MAXORDINAL) then
    let '(y, m, d) := _ord2ymd (td_days delta) in
    Ok (mkdatetime y m d hour minute second (td_microseconds delta))
  else Raise OverflowError.

(** [datetime.__sub__(self, other: timedelta)]: [self + -other]. *)
Definition datetime_sub (self : datetime) (other : timedelta)
  : result datetime :=
  neg <- timedelta_neg other ;;
  datetime_add self neg.

(** An argument that the C implementation reads as a C [int], of 32
    bits: outside this range the call raises [OverflowError] before the
    method runs. *)
Definition INT_MIN : Z := -2147483648.
Definition INT_MAX : Z := 2147483647.

Definition c_int (x : Z) : bool := (INT_MIN <=? x) && (x <=? INT_MAX).

(** [datetime.replace(year=, month=, day=)]: the three arguments are
    read as C [int]s, then the new date is checked. *)
Definition replace (self : datetime) (year month day : Z) : result datetime :=
  if negb (c_int year && c_int month && c_int day) then Raise OverflowError
  else
    _ <- _check_date_fields year month day ;;
    Ok (mkdatetime year month day (dt_hour self) (dt_minute self)
                   (dt_second self) (dt_microsecond self)).

(** Comparison of two datetimes with the same [tzinfo]: the tuples
    (year, month, day, hour, minute, second, microsecond) are compared
    lexicographically. *)
Definition _cmp (a b : datetime) : comparison :=
  match dt_year a ?= dt_year b with
  | Eq =>
    match dt_month a ?= dt_month b with
    | Eq =>
      match dt_day a ?= dt_day b with
      | Eq =>
        match dt_hour a ?= dt_hour b with
        | Eq =>
          match dt_minute a ?= dt_minute b with
          | Eq =>
            match dt_second a ?= dt_second b with
            | Eq => dt_microsecond a ?= dt_microsecond b
            | c => c
            end
          | c => c
          end
        | c => c
        end
      | c => c
      end
    | c => c
    end
  | c => c
  end.

(** [a <= b] *)
Definition datetime_le (a b : datetime) : bool :=
  match _cmp a b with
  | Gt => false
  | _ => true
  end.

(* ================================================================== *)
(** * Python's [calendar] module *)

Definition isleap (year : Z) : bool :=
  (year mod 4 =? 0) && (negb (year mod 100 =? 0) || (year mod 400 =? 0)).

(** [mdays = [0, 31, 28, 31, 30, 31, 30, 31, 31, 30, 31, 30, 31]] *)
Definition mdays (month : Z) : Z :=
  match month with
  | 1 => 31 | 2 => 28 | 3 => 31 | 4 => 30 | 5 => 31 | 6 => 30
  | 7 => 31 | 8 => 31 | 9 => 30 | 10 => 31 | 11 => 30 | 12 => 31
  | _ => 0
  end.

(** [calendar.monthrange(year, month)[1]]: the number of days of the
    month.  (The first component, the weekday of the month's first day,
    is not used by [relativedelta]; computing it does not raise.) *)
Definition monthrange (year month : Z) : result Z :=
  if negb ((1 <=? month) && (month <=? 12)) then Raise ValueError
  else Ok (mdays month + (if (month =? 2) && isleap year then 1 else 0)).

(* ================================================================== *)
(** * [dateutil.relativedelta]

    The program only builds [relativedelta(months=value)].  Of the
    relative fields only [years] and [months] can then be non-zero, and
    the absolute fields ([year], [month], [day], ...) are all [None]. *)

Record relativedelta : Type := mkrelativedelta {
  rd_years : Z;
  rd_months : Z
}.

(** [float(x)] for an [int]: the largest float is [2**1024 - 2**971],
    and an [int] that rounds beyond it, half-way included, raises
    [OverflowError]. *)
Definition float_limit : Z := 2 ^ 1024 - 2 ^ 970.

Definition float_overflows (x : Z) : bool := float_limit <=? Z.abs x.

(** [int(copysign(1, x))]: [copysign] takes floats, so [x] is converted
    first. *)
Definition _sign (x : Z) : result Z :=
  if float_overflows x then Raise OverflowError
  else Ok (if x <? 0 then -1 else 1).

(** [relativedelta(years=, months=)]: the constructor ends with [_fix],
    which carries whole dozens of months into [years]. *)
Definition relativedelta_new (years months : Z) : result relativedelta :=
  if 11 <? Z.abs months then
    s <- _sign months ;;
    let div := (months * s) / 12 in
    let mod_ := (months * s) mod 12 in
    Ok (mkrelativedelta (years + div * s) (mod_ * s))
  else Ok (mkrelativedelta years months).

(** [relativedelta.__neg__]: the constructor again, on the negated
    fields. *)
Definition relativedelta_neg (self : relativedelta) : result relativedelta :=
  relativedelta_new (- rd_years self) (- rd_months self).

(** [relativedelta.__radd__(self, other: datetime)] *)
Definition relativedelta_radd (self : relativedelta) (other : datetime)
  : result datetime :=
  let year := dt_year other + rd_years self in
  let month := dt_month other in
  let '(year, month) :=
    if negb (rd_months self =? 0) then
      let month := month + rd_months self in
      if 12 <? month then (year + 1, month - 12)
      else if month <? 1 then (year - 1, month + 12)
      else (year, month)
    else (year, month) in
  ndays <- monthrange year month ;;
  let day := Z.min ndays (dt_day other) in
  repl <- replace other year month day ;;
  zero <- timedelta_new 0 0 0 0 0 0 ;;
  datetime_add repl zero.

(** [relativedelta.__rsub__(self, dt)]: what [dt - self] evaluates to. *)
Definition relativedelta_rsub (self : relativedelta) (dt : datetime)
  : result datetime :=
  neg <- relativedelta_neg self ;;
  relativedelta_radd neg dt.

(* ================================================================== *)
(** * Strings and the regular expression *)

Open Scope string_scope.

Definition between (lo hi : N) (c : ascii) : bool :=
  ((lo <=? N_of_ascii c) && (N_of_ascii c <=? hi))%N.

(** [\d] on a [str]: a decimal digit.  Below 256 these are 0-9. *)
Definition isdigit (c : ascii) : bool := between 48 57 c.

(** [\s] on a [str]: Unicode white space.  Below 256 these are
    TAB, LF, VT, FF, CR, FS, GS, RS, US, SPACE, NEL and NBSP. *)
Definition isspace (c : ascii) : bool :=
  between 9 13 c || between 28 32 c
  || (N_of_ascii c =? 133)%N || (N_of_ascii c =? 160)%N.

(** [str.lower] on one code point below 256: A-Z, and the upper-case
    letters of Latin-1 (all of U+00C0..U+00DE but the multiplication
    sign) move up by 32. *)
Definition lower_char (c : ascii) : ascii :=
  if between 65 90 c
     || (between 192 222 c && negb (N_of_ascii c =? 215)%N)
  then ascii_of_N (N_of_ascii c + 32)
  else c.

Fixpoint lower (s : string) : string :=
  match s with
  | EmptyString => EmptyString
  | String c r => String (lower_char c) (lower r)
  end.

(** The pattern is [(\d+)\s*(mo|w|d|h|m)].  The three functions below
    are a backtracking matcher for it, anchored at the head of the
    string: each greedy repetition first tries to take one more
    character and falls back to the rest of the pattern when that
    fails, and the alternation tries its branches from left to right. *)

(** [(mo|w|d|h|m)]: the text of group 2 and what follows the match. *)
Definition match_unit (s : string) : option (string * string) :=
  match s with
  | String "m" (String "o" r) => Some ("mo", r)
  | String "w" r => Some ("w", r)
  | String "d" r => Some ("d", r)
  | String "h" r => Some ("h", r)
  | String "m" r => Some ("m", r)
  | _ => None
  end.

(** [\s*(mo|w|d|h|m)] *)
Fixpoint match_spaces (s : string) : option (string * string) :=
  match s with
  | String c r =>
    if isspace c then
      match match_spaces r with
      | Some res => Some res
      | None => match_unit s
      end
    else match_unit s
  | EmptyString => match_unit s
  end.

(** [(\d+)\s*(mo|w|d|h|m)]: group 1, group 2 and what follows. *)
Fixpoint match_here (s : string) : option (string * string * string) :=
  match s with
  | String c r =>
    if isdigit c then
      match match_here r with
      | Some (value, unit, rest) => Some (String c value, unit, rest)
      | None =>
        match match_spaces r with
        | Some (unit, rest) => Some (String c EmptyString, unit, rest)
        | None => None
        end
      end
    else None
  | EmptyString => None
  end.

(** [re.findall]: the scan tries a match at each position from left to
    right; after a match it resumes where the match ended.  [skip]
    counts the characters that the last match still covers.  (A match
    of this pattern is never empty.) *)
Fixpoint findall_from (skip : nat) (s : string) : list (string * string) :=
  match s with
  | EmptyString => []
  | String _ r =>
    match skip with
    | S k => findall_from k r
    | O =>
      match match_here s with
      | Some (value, unit, rest) =>
        (value, unit)
          :: findall_from (String.length s - String.length rest - 1) r
      | None => findall_from 0 r
      end
    end
  end.

Definition findall (s : string) : list (string * string) :=
  findall_from 0 s.

(** [int(value)] for a string of decimal digits; anything else is
    reported as [ValueError] here.  So is a string of more than
    [sys.get_int_max_str_digits()] digits, 4300 unless the limit was
    changed; leading zeros count. *)
Definition int_max_str_digits : N := 4300.

Definition digit_value (c : ascii) : option Z :=
  if isdigit c then Some (Z.of_N (N_of_ascii c) - 48)%Z else None.

Fixpoint int_from (acc : Z) (s : string) : result Z :=
  match s with
  | EmptyString => Ok acc
  | String c r =>
    match digit_value c with
    | Some v => int_from (10 * acc + v)%Z r
    | None => Raise ValueError
    end
  end.

Definition int (s : string) : result Z :=
  match s with
  | EmptyString => Raise ValueError
  | _ =>
    if (int_max_str_digits <? N.of_nat (String.length s))%N
    then Raise ValueError
    else int_from 0%Z s
  end.

(* ================================================================== *)
(** * [parse_relative_time_string] *)

(** The body of the [for value, unit in pattern] loop. *)
Definition loop_body (now : datetime) (tok : string * string)
  : result datetime :=
  let '(value, unit) := tok in
  value <- int value ;;
  if unit =? "mo" then
    delta <- relativedelta_new 0 value ;; relativedelta_rsub delta now
  else if unit =? "w" then
    delta <- timedelta_new 0 0 0 0 0 value ;; datetime_sub now delta
  else if unit =? "d" then
    delta <- timedelta_new value 0 0 0 0 0 ;; datetime_sub now delta
  else if unit =? "h" then
    delta <- timedelta_new 0 0 0 0 value 0 ;; datetime_sub now delta
  else if unit =? "m" then
    delta <- timedelta_new 0 0 0 value 0 0 ;; datetime_sub now delta
  else Ok now.

Fixpoint loop (pattern : list (string * string)) (now : datetime)
  : result datetime :=
  match pattern with
  | [] => Ok now
  | tok :: pattern' => now' <- loop_body now tok ;; loop pattern' now'
  end.

(** [now] is the value of [datetime.now(timezone.utc)]. *)
Definition parse_relative_time_string (now : datetime) (time_str : string)
  : result datetime :=
  let pattern := findall (lower time_str) in
  loop pattern now.

(* ================================================================== *)
(** * The [fetch] command *)

(** A Telethon [Message], as far as the callbacks read it.
    [msg_sender_username] is [None] where [getattr(msg.sender,
    'username', 'Unknown')] falls back to its default.  [msg_date] is
    the date Telegram gave the message, and the callbacks are embedded
    for messages whose date the local zone can render: a callback that
    raises does so inside the collaborator, and what the collaborator
    does then is not in the sources. *)
Record Message : Type := mkMessage {
  msg_id : Z;
  msg_date : datetime;
  msg_sender_username : option string;
  msg_raw_text : string;
  msg_message : string
}.

(** What one [print] call writes.  Each constructor is one of the
    program's format strings and carries the values interpolated into
    it; dates are carried as instants (the program renders them in the
    local time zone). *)
Inductive line : Type :=
| VerboseLine (id : Z) (date : datetime) (from : string) (text : string)
| PlainLine (message : string)
| ErrorLine (id : Z)
| SummaryLine (since_date : datetime) (min_id : option Z).

(** The keyword arguments of [tg.fetch_messages] other than the two
    callbacks. *)
Record fetch_request : Type := mkfetch_request {
  chat_identifier : string;
  req_min_id : option Z;
  req_limit : option Z;
  req_since_date : option datetime
}.

(** One callback invocation by the collaborator. *)
Inductive delivery : Type :=
| Processed (msg : Message)
| Errored (msg : Message).

(** Modelled from the spec: [TelegramManager.fetch_messages] is missing
    from the sources.  The spec describes it as a historical-fetch
    operation that takes a channel identifier and the filters and
    invokes the caller's success callback once per retrieved message
    and the error callback once per message it fails to process,
    sequentially and in its own delivery order; its failures propagate.
    A collaborator is therefore any function from the request to the
    sequence of callback invocations it makes, followed by the
    exception it ends with, if any. *)
Definition collaborator : Type :=
  fetch_request -> list delivery * option exception.

(** The state the callbacks act on: what has been printed so far, and
    the cell [found_min_id[0]]. *)
Record session : Type := mksession {
  stdout : list line;
  found_min_id : option Z
}.

Definition print (l : line) (st : session) : session :=
  mksession (stdout st ++ [l]) (found_min_id st).

Definition message_processor (verbose : bool) (st : session) (msg : Message)
  : session :=
  let st :=
    if verbose then
      print (VerboseLine (msg_id msg) (msg_date msg)
               (match msg_sender_username msg with
                | Some u => u
                | None => "Unknown"
                end)
               (msg_raw_text msg)) st
    else print (PlainLine (msg_message msg)) st in
  match found_min_id st with
  | None => mksession (stdout st) (Some (msg_id msg))
  | Some cur =>
    if (msg_id msg <? cur)%Z then mksession (stdout st) (Some (msg_id msg))
    else st
  end.

Definition error_handler (st : session) (msg : Message) : session :=
  print (ErrorLine (msg_id msg)) st.

Definition callback (verbose : bool) (st : session) (d : delivery) : session :=
  match d with
  | Processed msg => message_processor verbose st msg
  | Errored msg => error_handler st msg
  end.

(** Python's truth value of [since]: [None] and the empty string are
    false. *)
Definition truthy (since : option string) : bool :=
  match since with
  | Some (String _ _) => true
  | _ => false
  end.

(** The local time zone, as the platform's [localtime] reports it: the
    offset from UTC, in seconds, in force at a UTC instant. *)
Definition zone : Type := datetime -> Z.

(** [dt.astimezone()] for an aware [dt] in UTC.  [local_timezone] asks
    the platform for the offset at [dt] and makes a fixed-offset
    [timezone] of it, which must lie strictly between minus and plus
    24 hours; [timezone.fromutc] then adds the offset to [dt].  The
    result is the local wall-clock time. *)
Definition astimezone (local : zone) (self : datetime) : result datetime :=
  offset <- timedelta_new 0 (local self) 0 0 0 0 ;;
  if ((td_days offset <? -1) || (1 <=? td_days offset)
      || ((td_days offset =? -1) && (td_seconds offset =? 0)
          && (td_microseconds offset <? 1)))%Z
  then Raise ValueError
  else datetime_add self offset.

(** How an invocation of [fetch] ends. *)
Inductive outcome : Type :=
| Returned
| BadParameter (since : option string) (cause : exception)
| Propagated (e : exception).

(** What an invocation of [fetch] does: the requests it made to the
    collaborator, the final state of the session, and how it ended. *)
Record run : Type := mkrun {
  requests : list fetch_request;
  final : session;
  ending : outcome
}.

(** [fetch(channel, min_id, limit, since, verbose)].  The f-string of
    the summary evaluates [since_date.astimezone()] before anything is
    printed: where that raises, no summary is printed and the exception
    leaves [fetch]. *)
Definition fetch (local : zone) (tg : collaborator) (now : datetime)
    (channel : string) (min_id limit : option Z) (since : option string)
    (verbose : bool) : run :=
  let start := mksession [] None in
  let resolved :=
    match since with
    | Some time_str =>
      if truthy since then
        since_date <- parse_relative_time_string now time_str ;;
        Ok (Some since_date)
      else Ok None
    | None => Ok None
    end in
  match resolved with
  | Raise e => mkrun [] start (BadParameter since e)
  | Ok since_date =>
    let req := mkfetch_request channel min_id limit since_date in
    let '(deliveries, failure) := tg req in
    let st := fold_left (callback verbose) deliveries start in
    match failure with
    | Some e => mkrun [req] st (Propagated e)
    | None =>
      if truthy since && verbose then
        match since_date with
        | Some d =>
          match astimezone local d with
          | Ok _ => mkrun [req] (print (SummaryLine d (found_min_id st)) st)
                          Returned
          | Raise e => mkrun [req] st (Propagated e)
          end
        | None => mkrun [req] st (Propagated AttributeError)
        end
      else mkrun [req] st Returned
    end
  end.

(* ================================================================== *)
(** * The [listen] command *)

(** What [print] writes in [listen]: the one format string of
    [on_message], with the value interpolated into it. *)
Inductive listen_line : Type :=
| NewMessageLine (message : string).

(** The handler that [listen] registers; the state is what has been
    printed so far. *)
Definition on_message (out : list listen_line) (msg : Message)
  : list listen_line :=
  (out ++ [NewMessageLine (msg_message msg)])%list.

(** Modelled from the spec: [TelegramManager.listen] is missing from the
    sources.  The spec describes it as a long-lived operation that
    takes a channel identifier and calls the caller's handler for each
    incoming message, one at a time, until the process is interrupted.
    A listener is therefore any function from the channel to the
    messages that arrive before the interruption. *)
Definition listener : Type := string -> list Message.

Definition listen (tg : listener) (channel : string) : list listen_line :=
  fold_left on_message (tg channel) [].

(* ================================================================== *)
(** * Vocabulary of the statements *)

Open Scope Z_scope.

(** ** Dates and instants *)

(** What the [date] constructor accepts. *)
Definition valid_date (y m d : Z) : Prop :=
  MINYEAR <= y <= MAXYEAR /\ 1 <= m <= 12 /\ 1 <= d <= _days_in_month y m.

(** What the [datetime] constructor accepts. *)
Definition valid_datetime (t : datetime) : Prop :=
  valid_date (dt_year t) (dt_month t) (dt_day t)
  /\ 0 <= dt_hour t < 24 /\ 0 <= dt_minute t < 60
  /\ 0 <= dt_second t < 60 /\ 0 <= dt_microsecond t < 1000000.

(** The invariant of a [timedelta] object. *)
Definition valid_timedelta (td : timedelta) : Prop :=
  Z.abs (td_days td) <= 999999999
  /\ 0 <= td_seconds td < 86400
  /\ 0 <= td_microseconds td < 1000000.

(** A duration as one number of microseconds. *)
Definition total_microseconds (td : timedelta) : Z :=
  (td_days td * 86400 + td_seconds td) * 1000000 + td_microseconds td.

(** An instant as one number: the microseconds since the start of the
    day with ordinal 0.  This is the reference time line on which
    "seven days earlier" is a subtraction. *)
Definition microseconds_of (t : datetime) : Z :=
  (toordinal t * 86400 + dt_hour t * 3600 + dt_minute t * 60 + dt_second t)
  * 1000000 + dt_microsecond t.

(** The time of day in microseconds. *)
Definition time_of_day (t : datetime) : Z :=
  (dt_hour t * 3600 + dt_minute t * 60 + dt_second t) * 1000000
  + dt_microsecond t.

(** The instant at a given point of the time line. *)
Definition of_microseconds (total : Z) : datetime :=
  let days := total / 86400000000 in
  let secs := (total / 1000000) mod 86400 in
  let '(y, m, d) := _ord2ymd days in
  mkdatetime y m d (secs / 3600) (secs mod 3600 / 60) ((secs mod 3600) mod 60)
             (total mod 1000000).

(** The points of the time line that are a [datetime]: from
    0001-01-01 00:00:00 to 9999-12-31 23:59:59.999999. *)
Definition representable (total : Z) : bool :=
  (86400000000 <=? total) && (total <? (_MAXORDINAL + 1) * 86400000000).

(** [datetime.min], the earliest instant. *)
Definition datetime_min : datetime := mkdatetime 1 1 1 0 0 0 0.

(** One day in microseconds. *)
Definition day : Z := 86400000000.

(** The instant [us] microseconds before [t], or the [OverflowError]
    Python raises when there is none. *)
Definition microseconds_before (t : datetime) (us : Z) : result datetime :=
  let total := microseconds_of t - us in
  if representable total then Ok (of_microseconds total)
  else Raise OverflowError.

(** The instant [n] calendar months before [t]: the same time of day, in
    the month [n] months earlier, on the same day of the month or, where
    that month is too short, on its last day; a [ValueError] when that
    month lies before year 1, and an [OverflowError] when its year lies
    below what a C [int] holds. *)
Definition months_before (t : datetime) (n : Z) : result datetime :=
  let k := dt_year t * 12 + (dt_month t - 1) - n in
  let y := k / 12 in
  let m := k mod 12 + 1 in
  if y <? INT_MIN then Raise OverflowError
  else if y <? MINYEAR then Raise ValueError
  else Ok (mkdatetime y m (Z.min (_days_in_month y m) (dt_day t))
                      (dt_hour t) (dt_minute t) (dt_second t)
                      (dt_microsecond t)).

(** The length of a fixed unit in microseconds. *)
Definition unit_microseconds (u : string) : Z :=
  if (u =? "w")%string then 7 * 86400000000
  else if (u =? "d")%string then 86400000000
  else if (u =? "h")%string then 3600000000
  else if (u =? "m")%string then 60000000
  else 0.

(** Subtracting [n] units [u] from [now] leaves what Python can
    represent, and [e] is the exception this raises.  A month count
    that reaches before January of year 1 is a [ValueError] (from
    [datetime.replace]) as long as the year it reaches fits a C [int],
    and an [OverflowError] below that; a fixed duration that reaches
    before [datetime.min] is an [OverflowError]. *)
Definition out_of_range (now : datetime) (n : Z) (u : string) (e : exception)
  : Prop :=
  if (u =? "mo")%string then
    let k := dt_year now * 12 + (dt_month now - 1) - n in
    (e = ValueError /\ INT_MIN * 12 <= k < MINYEAR * 12)
    \/ (e = OverflowError /\ k < INT_MIN * 12)
  else
    e = OverflowError
    /\ microseconds_of now - n * unit_microseconds u
       < microseconds_of datetime_min.

(** The order of dates: by year, then month, then day. *)
Definition date_lt (a b : Z * Z * Z) : Prop :=
  let '(y1, m1, d1) := a in
  let '(y2, m2, d2) := b in
  y1 < y2 \/ (y1 = y2 /\ (m1 < m2 \/ (m1 = m2 /\ d1 < d2))).

(** The day of the year, counted from 1. *)
Definition day_of_year (y m d : Z) : Z := _days_before_month y m + d.

(** An instant used in the examples: 2024-03-31 12:30:15.123456 UTC. *)
Definition T0 : datetime := mkdatetime 2024 3 31 12 30 15 123456.

(** ** Checks by evaluation

    [_ord2ymd] splits an ordinal into a 400-year cycle, a century, a
    4-year cycle, a year and a day of the year.  That these digits name
    the right year is checked on the 5 * 25 * 5 combinations of century,
    4-year cycle and year; that the day of the year is split into the
    right month and day is checked on the 366 days of both kinds of
    year. *)

Fixpoint all_from (f : Z -> bool) (z : Z) (n : nat) : bool :=
  match n with
  | O => true
  | S k => f z && all_from f (z + 1) k
  end.

(** The last steps of [_ord2ymd]: month and day from the day of the
    year [n], counted from 0. *)
Definition month_day (n : Z) (leapyear : bool) : Z * Z :=
  let month := Z.shiftr (n + 50) 5 in
  let preceding :=
    _DAYS_BEFORE_MONTH month + (if (2 <? month) && leapyear then 1 else 0) in
  if n <? preceding then
    let month := month - 1 in
    let preceding :=
      preceding
      - (_DAYS_IN_MONTH month + (if (month =? 2) && leapyear then 1 else 0)) in
    (month, n - preceding + 1)
  else (month, n - preceding + 1).

(** For the digits [a] (centuries), [b] (4-year cycles) and [c] (years)
    of a day within a 400-year cycle: the days before the year they
    name, and whether that year is a leap year. *)
Definition digits_ok (a b c : Z) : bool :=
  let year := 1 + (a * 100 + b * 4 + c) in
  let before := 36524 * a + 1461 * b + 365 * c in
  if (c =? 4) || (a =? 4) then
    negb ((1461 * b + 365 * c <? 36524) && (before <? 146097))
    || (_days_before_year year =? before + 1)
  else
    (_days_before_year year =? before)
    && Bool.eqb ((c =? 3) && (negb (b =? 24) || (a =? 3))) (_is_leap year).

Definition month_day_ok (leapyear : bool) (n : Z) : bool :=
  let '(m, d) := month_day n leapyear in
  negb (n <? 365 + (if leapyear then 1 else 0))
  || ((1 <=? m) && (m <=? 12) && (1 <=? d)
      && (d <=? _DAYS_IN_MONTH m + (if (m =? 2) && leapyear then 1 else 0))
      && (_DAYS_BEFORE_MONTH m + (if (2 <? m) && leapyear then 1 else 0) + d
          =? n + 1)).

(** ** Tokens *)

Fixpoint all_chars (p : ascii -> bool) (s : string) : bool :=
  match s with
  | EmptyString => true
  | String c r => p c && all_chars p r
  end.

Definition nondigit (c : ascii) : bool := negb (isdigit c).

(** A magnitude as the pattern's group 1 can hold it. *)
Definition is_magnitude (v : string) : Prop :=
  v <> EmptyString /\ all_chars isdigit v = true.

(** A zone with the same offset at every instant. *)
Definition fixed_zone (seconds : Z) : zone := fun _ => seconds.

(** The wall-clock time of the zone at a UTC instant, on the time
    line. *)
Definition local_microseconds (local : zone) (d : datetime) : Z :=
  microseconds_of d + local d * 1000000.

(** A zone as the time zone databases have them: every offset is less
    than a day. *)
Definition within_a_day (local : zone) : Prop :=
  forall t, -86400 < local t < 86400.

(** A magnitude that [int] converts: not longer than the digit limit. *)
Definition within_digit_limit (v : string) : bool :=
  (N.of_nat (String.length v) <=? int_max_str_digits)%N.

(** A magnitude of 4301 digits. *)
Definition over_long_magnitude : string :=
  String.concat EmptyString (List.repeat "1"%string 4301%nat).

(** A unit as the pattern's group 2 can hold it. *)
Definition is_unit (u : string) : Prop :=
  u = "mo" \/ u = "w" \/ u = "d" \/ u = "h" \/ u = "m".

(** A (magnitude, unit) pair as [findall] can return it. *)
Definition is_token (tok : string * string) : Prop :=
  is_magnitude (fst tok) /\ is_unit (snd tok).

(** A token as text, followed by a space. *)
Definition token_text (tok : string * string) : string :=
  (fst tok ++ snd tok ++ " ")%string.

(** The tokens written one after the other. *)
Fixpoint expression (toks : list (string * string)) : string :=
  match toks with
  | [] => EmptyString
  | tok :: toks' => (token_text tok ++ expression toks')%string
  end.

(** ** Fetch sessions *)

(** The session at the start of [fetch]. *)
Definition start : session := mksession [] None.

(** The session after the collaborator made the callbacks [ds]. *)
Definition session_after (verbose : bool) (ds : list delivery) : session :=
  fold_left (callback verbose) ds start.

(** The identifiers of the messages the success callback got, in
    delivery order. *)
Definition processed_ids (ds : list delivery) : list Z :=
  flat_map (fun d => match d with
                     | Processed msg => [msg_id msg]
                     | Errored _ => []
                     end) ds.

(** [o] is unset when there are no identifiers, and otherwise the
    smallest of them. *)
Definition is_minimum (o : option Z) (ids : list Z) : Prop :=
  match o with
  | None => ids = []
  | Some m => In m ids /\ Forall (fun x => m <= x) ids
  end.

(** A collaborator that makes the given callbacks and then returns. *)
Definition delivering (ds : list delivery) : collaborator :=
  fun _ => (ds, None).


(** What [fetch] computes before it calls the collaborator. *)
Definition resolve (now : datetime) (since : option string)
  : result (option datetime) :=
  match since with
  | Some time_str =>
    if truthy since then
      since_date <- parse_relative_time_string now time_str ;;
      Ok (Some since_date)
    else Ok None
  | None => Ok None
  end.

(** ** More vocabulary: tokens, months and printed lines *)

(** A token of a unit of fixed length. *)
Definition is_fixed_token (tok : string * string) : Prop :=
  is_magnitude (fst tok)
  /\ (snd tok = "w" \/ snd tok = "d" \/ snd tok = "h" \/ snd tok = "m").

(** A token whose magnitude is within the digit limit of [int]. *)
Definition is_short_token (tok : string * string) : Prop :=
  within_digit_limit (fst tok) = true.

(** The length of a token of fixed length, in microseconds. *)
Definition token_microseconds (tok : string * string) : Z :=
  match int (fst tok) with
  | Ok n => n * unit_microseconds (snd tok)
  | Raise _ => 0
  end.

(** The length of a list of tokens of fixed length. *)
Fixpoint tokens_microseconds (toks : list (string * string)) : Z :=
  match toks with
  | [] => 0
  | tok :: toks' => token_microseconds tok + tokens_microseconds toks'
  end.

(** A text with its letters a-z in upper case, all else as it is: what
    two texts that differ only in the case of such letters share. *)
Definition upper_char (c : ascii) : ascii :=
  if between 97 122 c then ascii_of_N (N_of_ascii c - 32) else c.

Fixpoint upper (s : string) : string :=
  match s with
  | EmptyString => EmptyString
  | String c r => String (upper_char c) (upper r)
  end.

(** The first letters of the units. *)
Definition starts_unit (c : ascii) : bool :=
  (c =? "m")%char || (c =? "w")%char || (c =? "d")%char || (c =? "h")%char.

(** The months since the start of the calendar: January of year 1 is
    month 12. *)
Definition month_index (t : datetime) : Z :=
  dt_year t * 12 + (dt_month t - 1).

(** A token of magnitude zero. *)
Definition is_zero_token (tok : string * string) : Prop :=
  int (fst tok) = Ok 0.

(** The line a callback prints. *)
Definition line_of (verbose : bool) (d : delivery) : line :=
  match d with
  | Processed msg =>
    if verbose then
      VerboseLine (msg_id msg) (msg_date msg)
        (match msg_sender_username msg with
         | Some u => u
         | None => "Unknown"
         end)
        (msg_raw_text msg)
    else PlainLine (msg_message msg)
  | Errored msg => ErrorLine (msg_id msg)
  end.

Definition is_processed (d : delivery) : bool :=
  match d with
  | Processed _ => true
  | Errored _ => false
  end.


Open Scope string_scope.
Open Scope Z_scope.

(* ================================================================== *)
(** * Proofs *)

(** ** The calendar: ordinals and dates *)

Lemma days_before_year_succ y :
  _days_before_year (y + 1)
  = _days_before_year y + 365 + (if _is_leap y then 1 else 0).
Proof.
  unfold _days_before_year, _is_leap.
  replace (y + 1 - 1) with y by lia.
  destruct (Z.eqb_spec (y mod 4) 0), (Z.eqb_spec (y mod 100) 0),
    (Z.eqb_spec (y mod 400) 0); cbn [andb orb negb];
    Z.div_mod_to_equations; lia.
Qed.

Lemma days_before_year_mono y1 y2 :
  y1 <= y2 -> _days_before_year y1 + 365 * (y2 - y1) <= _days_before_year y2.
Proof.
  unfold _days_before_year. intros. Z.div_mod_to_equations. lia.
Qed.

Lemma days_before_year_shift y q :
  _days_before_year (y + 400 * q) = _days_before_year y + _DI400Y * q.
Proof.
  unfold _days_before_year, _DI400Y. Z.div_mod_to_equations. lia.
Qed.

Lemma is_leap_shift y q : _is_leap (y + 400 * q) = _is_leap y.
Proof.
  unfold _is_leap.
  replace ((y + 400 * q) mod 4) with (y mod 4)
    by (Z.div_mod_to_equations; lia).
  replace ((y + 400 * q) mod 100) with (y mod 100)
    by (Z.div_mod_to_equations; lia).
  replace ((y + 400 * q) mod 400) with (y mod 400)
    by (Z.div_mod_to_equations; lia).
  reflexivity.
Qed.

Ltac table_calc :=
  cbn [_DAYS_BEFORE_MONTH _DAYS_IN_MONTH mdays Z.eqb Z.ltb Z.leb Z.compare
       Pos.compare Pos.compare_cont Pos.eqb andb orb negb] in *.

Ltac month_cases m :=
  let H := fresh "Hm" in
  assert (H : m = 1 \/ m = 2 \/ m = 3 \/ m = 4 \/ m = 5 \/ m = 6 \/ m = 7
              \/ m = 8 \/ m = 9 \/ m = 10 \/ m = 11 \/ m = 12) by lia;
  destruct H as [H|[H|[H|[H|[H|[H|[H|[H|[H|[H|[H|H]]]]]]]]]]]; subst m.

Lemma all_from_spec f n :
  forall z0, all_from f z0 n = true ->
  forall z, z0 <= z < z0 + Z.of_nat n -> f z = true.
Proof.
  induction n as [|k IH]; intros z0 H z Hz.
  - lia.
  - cbn [all_from] in H. apply andb_true_iff in H as [Hk Hr].
    destruct (Z.eq_dec z z0) as [->|Hne]; [exact Hk|].
    apply (IH (z0 + 1)); [exact Hr | lia].
Qed.

Lemma digits_checked a b c :
  0 <= a <= 4 -> 0 <= b <= 24 -> 0 <= c <= 4 -> digits_ok a b c = true.
Proof.
  intros Ha Hb Hc.
  assert (H : all_from (fun a => all_from (fun b =>
                all_from (fun c => digits_ok a b c) 0 5) 0 25) 0 5 = true)
    by (vm_compute; reflexivity).
  pose proof (all_from_spec _ _ _ H a ltac:(lia)) as H1. cbv beta in H1.
  pose proof (all_from_spec _ _ _ H1 b ltac:(lia)) as H2. cbv beta in H2.
  exact (all_from_spec _ _ _ H2 c ltac:(lia)).
Qed.

Lemma month_day_checked leapyear n :
  0 <= n < 366 -> month_day_ok leapyear n = true.
Proof.
  intros Hn.
  destruct leapyear.
  - assert (H : all_from (month_day_ok true) 0 366 = true)
      by (vm_compute; reflexivity).
    exact (all_from_spec _ _ _ H n ltac:(lia)).
  - assert (H : all_from (month_day_ok false) 0 366 = true)
      by (vm_compute; reflexivity).
    exact (all_from_spec _ _ _ H n ltac:(lia)).
Qed.

Lemma ord2ymd_unfold n :
  _ord2ymd n =
  let r := (n - 1) mod _DI400Y in
  let n100 := r / _DI100Y in
  let n4 := (r mod _DI100Y) / _DI4Y in
  let n1 := ((r mod _DI100Y) mod _DI4Y) / 365 in
  let n' := ((r mod _DI100Y) mod _DI4Y) mod 365 in
  let year := (n - 1) / _DI400Y * 400 + 1 + (n100 * 100 + n4 * 4 + n1) in
  if (n1 =? 4) || (n100 =? 4) then (year - 1, 12, 31)
  else
    let leapyear := (n1 =? 3) && (negb (n4 =? 24) || (n100 =? 3)) in
    let '(m, d) := month_day n' leapyear in (year, m, d).
Proof.
  cbv zeta. unfold _ord2ymd, month_day. cbv zeta.
  repeat match goal with
  | |- context [if ?c then _ else _] => destruct c
  end; reflexivity.
Qed.

Lemma year_level r :
  0 <= r < _DI400Y ->
  let n100 := r / _DI100Y in
  let n4 := (r mod _DI100Y) / _DI4Y in
  let n1 := ((r mod _DI100Y) mod _DI4Y) / 365 in
  let n' := ((r mod _DI100Y) mod _DI4Y) mod 365 in
  let year := 1 + (n100 * 100 + n4 * 4 + n1) in
  if (n1 =? 4) || (n100 =? 4) then
    _days_before_year year = r + 1 /\ 2 <= year <= 401
  else
    let leapyear := (n1 =? 3) && (negb (n4 =? 24) || (n100 =? 3)) in
    _days_before_year year = r - n' /\ leapyear = _is_leap year
    /\ 0 <= n' < 365 /\ 1 <= year <= 400.
Proof.
  intros Hr. cbv zeta.
  unfold _DI400Y, _DI100Y, _DI4Y in *.
  pose proof (Z.div_mod r 36524 ltac:(lia)) as E1.
  pose proof (Z.mod_pos_bound r 36524 ltac:(lia)) as B1.
  set (n100 := r / 36524) in *. set (r1 := r mod 36524) in *.
  pose proof (Z.div_mod r1 1461 ltac:(lia)) as E2.
  pose proof (Z.mod_pos_bound r1 1461 ltac:(lia)) as B2.
  set (n4 := r1 / 1461) in *. set (r2 := r1 mod 1461) in *.
  pose proof (Z.div_mod r2 365 ltac:(lia)) as E3.
  pose proof (Z.mod_pos_bound r2 365 ltac:(lia)) as B3.
  set (n1 := r2 / 365) in *. set (n := r2 mod 365) in *.
  clearbody n100 r1 n4 r2 n1 n.
  assert (H100 : 0 <= n100 <= 4) by lia.
  assert (H4 : 0 <= n4 <= 24) by lia.
  assert (H1 : 0 <= n1 <= 4) by lia.
  pose proof (digits_checked n100 n4 n1 H100 H4 H1) as D.
  unfold digits_ok in D. cbv zeta in D.
  destruct ((n1 =? 4) || (n100 =? 4)) eqn:Edge.
  - apply orb_true_iff in D as [D | D].
    + apply negb_true_iff, andb_false_iff in D.
      apply orb_true_iff in Edge.
      destruct D as [D | D]; apply Z.ltb_ge in D;
        destruct Edge as [Edge | Edge]; apply Z.eqb_eq in Edge; lia.
    + apply Z.eqb_eq in D. split; [lia|].
      apply orb_true_iff in Edge.
      destruct Edge as [Edge | Edge]; apply Z.eqb_eq in Edge; lia.
  - apply andb_true_iff in D as [D L]. apply Z.eqb_eq in D.
    apply Bool.eqb_prop in L.
    apply orb_false_iff in Edge as [Ea Eb].
    apply Z.eqb_neq in Ea, Eb.
    repeat split; try lia. exact L.
Qed.

Lemma days_in_month_alt y m :
  _days_in_month y m
  = _DAYS_IN_MONTH m + (if (m =? 2) && _is_leap y then 1 else 0).
Proof.
  unfold _days_in_month.
  destruct (Z.eqb_spec m 2) as [->|]; cbn [andb]; [|lia].
  destruct (_is_leap y); reflexivity.
Qed.

Lemma ord2ymd_spec n :
  1 <= n <= _MAXORDINAL ->
  let '(y, m, d) := _ord2ymd n in
  valid_date y m d /\ _ymd2ord y m d = n.
Proof.
  intros Hn. rewrite ord2ymd_unfold. cbv zeta.
  assert (Hr : 0 <= (n - 1) mod _DI400Y < _DI400Y)
    by (apply Z.mod_pos_bound; reflexivity).
  pose proof (Z.div_mod (n - 1) _DI400Y ltac:(discriminate)) as En.
  set (q := (n - 1) / _DI400Y) in *. set (r := (n - 1) mod _DI400Y) in *.
  assert (Hq : 0 <= q) by (apply Z.div_pos; [lia | reflexivity]).
  pose proof (year_level r Hr) as Y. cbv zeta in Y.
  set (n100 := r / _DI100Y) in *.
  set (n4 := r mod _DI100Y / _DI4Y) in *.
  set (n1 := (r mod _DI100Y) mod _DI4Y / 365) in *.
  set (n' := ((r mod _DI100Y) mod _DI4Y) mod 365) in *.
  set (y' := 1 + (n100 * 100 + n4 * 4 + n1)) in *.
  replace (q * 400 + 1 + (n100 * 100 + n4 * 4 + n1)) with (y' + 400 * q)
    by (unfold y'; lia).
  clearbody y' n' n1 n4 n100 q r.
  unfold _MAXORDINAL, _DI400Y in *.
  assert (Hmax : _days_before_year 10000 = 3652059) by reflexivity.
  destruct ((n1 =? 4) || (n100 =? 4)).
  - destruct Y as [Y Yb].
    pose proof (days_before_year_shift y' q) as Sh.
    pose proof (days_before_year_succ (y' + 400 * q - 1)) as Su.
    replace (y' + 400 * q - 1 + 1) with (y' + 400 * q) in Su by lia.
    unfold _DI400Y in Sh.
    assert (Yhi : y' + 400 * q - 1 <= 9999).
    { destruct (Z_le_gt_dec (y' + 400 * q - 1) 9999) as [|Hgt]; [assumption|].
      pose proof (days_before_year_mono 10000 (y' + 400 * q - 1) ltac:(lia)).
      destruct (_is_leap (y' + 400 * q - 1)); lia. }
    unfold valid_date, _ymd2ord, _days_before_month, MINYEAR, MAXYEAR.
    rewrite days_in_month_alt. table_calc.
    destruct (_is_leap (y' + 400 * q - 1)); lia.
  - destruct Y as (Y & L & Nb & Yb).
    pose proof (days_before_year_shift y' q) as Sh.
    pose proof (is_leap_shift y' q) as Ls.
    unfold _DI400Y in Sh.
    set (leapyear := (n1 =? 3) && (negb (n4 =? 24) || (n100 =? 3))) in *.
    clearbody leapyear.
    pose proof (month_day_checked leapyear n' ltac:(lia)) as M.
    unfold month_day_ok in M.
    destruct (month_day n' leapyear) as [m d].
    apply orb_true_iff in M as [M | M];
      [apply negb_true_iff, Z.ltb_ge in M; destruct leapyear; lia|].
    repeat (apply andb_true_iff in M as [M ?]).
    repeat match goal with
    | H : (_ <=? _) = true |- _ => apply Z.leb_le in H
    | H : (_ =? _) = true |- _ => apply Z.eqb_eq in H
    end.
    assert (Ey : _ymd2ord (y' + 400 * q) m d = n).
    { unfold _ymd2ord, _days_before_month. rewrite Ls, <- L. lia. }
    assert (Yhi : y' + 400 * q <= 9999).
    { destruct (Z_le_gt_dec (y' + 400 * q) 9999) as [|Hgt]; [assumption|].
      pose proof (days_before_year_mono 10000 (y' + 400 * q) ltac:(lia)).
      lia. }
    split; [|exact Ey].
    unfold valid_date, MINYEAR, MAXYEAR. rewrite days_in_month_alt, Ls, <- L.
    lia.
Qed.

Lemma day_of_year_bounds y m d :
  1 <= m <= 12 -> 1 <= d <= _days_in_month y m ->
  1 <= day_of_year y m d <= 365 + (if _is_leap y then 1 else 0).
Proof.
  intros Hm Hd. unfold day_of_year, _days_before_month.
  rewrite days_in_month_alt in Hd.
  month_cases m; destruct (_is_leap y); table_calc; lia.
Qed.

Lemma day_of_year_lt y m1 d1 m2 d2 :
  1 <= m1 <= 12 -> 1 <= d1 <= _days_in_month y m1 ->
  1 <= m2 <= 12 -> 1 <= d2 <= _days_in_month y m2 ->
  m1 < m2 -> day_of_year y m1 d1 < day_of_year y m2 d2.
Proof.
  intros Hm1 Hd1 Hm2 Hd2 Hlt. unfold day_of_year, _days_before_month.
  rewrite days_in_month_alt in Hd1, Hd2.
  month_cases m1; month_cases m2; try lia;
    destruct (_is_leap y); table_calc; lia.
Qed.

Lemma ymd2ord_lt y1 m1 d1 y2 m2 d2 :
  valid_date y1 m1 d1 -> valid_date y2 m2 d2 ->
  date_lt (y1, m1, d1) (y2, m2, d2) ->
  _ymd2ord y1 m1 d1 < _ymd2ord y2 m2 d2.
Proof.
  intros (Hy1 & Hm1 & Hd1) (Hy2 & Hm2 & Hd2) Hlt.
  unfold _ymd2ord.
  pose proof (day_of_year_bounds y1 m1 d1 Hm1 Hd1) as B1.
  pose proof (day_of_year_bounds y2 m2 d2 Hm2 Hd2) as B2.
  unfold day_of_year in B1, B2.
  destruct Hlt as [Hlt | [-> [Hlt | [-> Hlt]]]].
  - pose proof (days_before_year_succ y1) as Su.
    pose proof (days_before_year_mono (y1 + 1) y2 ltac:(lia)) as Mo.
    lia.
  - pose proof (day_of_year_lt y2 m1 d1 m2 d2 Hm1 Hd1 Hm2 Hd2 Hlt) as L.
    unfold day_of_year in L. lia.
  - lia.
Qed.

Lemma ymd2ord_range y m d :
  valid_date y m d -> 1 <= _ymd2ord y m d <= _MAXORDINAL.
Proof.
  intros (Hy & Hm & Hd). unfold MINYEAR, MAXYEAR in Hy.
  pose proof (day_of_year_bounds y m d Hm Hd) as B.
  unfold day_of_year in B. unfold _ymd2ord, _MAXORDINAL.
  pose proof (days_before_year_succ y) as Su.
  pose proof (days_before_year_mono 1 y ltac:(lia)) as Lo.
  pose proof (days_before_year_mono (y + 1) 10000 ltac:(lia)) as Hi.
  change (_days_before_year 1) with 0 in Lo.
  change (_days_before_year 10000) with 3652059 in Hi.
  lia.
Qed.

Lemma ymd2ord_inj y1 m1 d1 y2 m2 d2 :
  valid_date y1 m1 d1 -> valid_date y2 m2 d2 ->
  _ymd2ord y1 m1 d1 = _ymd2ord y2 m2 d2 ->
  (y1, m1, d1) = (y2, m2, d2).
Proof.
  intros V1 V2 E.
  assert (T : date_lt (y1, m1, d1) (y2, m2, d2)
              \/ date_lt (y2, m2, d2) (y1, m1, d1)
              \/ (y1 = y2 /\ m1 = m2 /\ d1 = d2)) by (cbn; lia).
  destruct T as [T | [T | (-> & -> & ->)]].
  - pose proof (ymd2ord_lt _ _ _ _ _ _ V1 V2 T). lia.
  - pose proof (ymd2ord_lt _ _ _ _ _ _ V2 V1 T). lia.
  - reflexivity.
Qed.

Lemma ord2ymd_ymd2ord y m d :
  valid_date y m d -> _ord2ymd (_ymd2ord y m d) = (y, m, d).
Proof.
  intros V.
  pose proof (ord2ymd_spec _ (ymd2ord_range _ _ _ V)) as S.
  destruct (_ord2ymd (_ymd2ord y m d)) as [[y' m'] d'].
  destruct S as [V' E].
  exact (ymd2ord_inj _ _ _ _ _ _ V' V E).
Qed.

Lemma timedelta_new_normal d s us mi h w :
  let total := ((d + w * 7) * 86400 + s + mi * 60 + h * 3600) * 1000000 + us in
  timedelta_new d s us mi h w =
  if 999999999 <? Z.abs (total / 86400000000) then Raise OverflowError
  else Ok (mktimedelta (total / 86400000000) ((total / 1000000) mod 86400)
                       (total mod 1000000)).
Proof.
  intros total. unfold timedelta_new. cbv zeta.
  change (24 * 3600) with 86400.
  set (S0 := s + (mi * 60 + h * 3600)).
  assert (Eus : (us mod 1000000) / 1000000 = 0)
    by (apply Z.div_small, Z.mod_pos_bound; lia).
  assert (Eus' : (us mod 1000000) mod 1000000 = us mod 1000000)
    by (apply Z.mod_small, Z.mod_pos_bound; lia).
  rewrite Eus, Eus', Z.add_0_r.
  set (S1 := S0 mod 86400 + (us / 1000000) mod 86400).
  assert (Ed : d + w * 7 + S0 / 86400 + us / 1000000 / 86400 + S1 / 86400
               = total / 86400000000).
  { subst total S1 S0. Z.div_mod_to_equations. lia. }
  assert (Es : S1 mod 86400 = (total / 1000000) mod 86400).
  { subst total S1 S0. Z.div_mod_to_equations. lia. }
  assert (Eu : us mod 1000000 = total mod 1000000).
  { subst total S0. Z.div_mod_to_equations. lia. }
  rewrite Ed, Es, Eu. reflexivity.
Qed.

Lemma toordinal_range t :
  valid_datetime t -> 1 <= toordinal t <= _MAXORDINAL.
Proof. intros [V _]. exact (ymd2ord_range _ _ _ V). Qed.

Lemma datetime_add_normal t td :
  valid_datetime t -> valid_timedelta td ->
  datetime_add t td =
  let total := microseconds_of t + total_microseconds td in
  if representable total then Ok (of_microseconds total)
  else Raise OverflowError.
Proof.
  intros Vt Vtd. pose proof (toordinal_range t Vt) as Ho.
  destruct Vt as (_ & Hh & Hmi & Hs & Hus).
  destruct Vtd as (Hd & Hts & Htu).
  unfold datetime_add, microseconds_of, total_microseconds, representable,
    of_microseconds, _MAXORDINAL in *.
  cbv zeta.
  rewrite timedelta_new_normal. cbv zeta.
  set (o := toordinal t) in *. clearbody o.
  destruct t as [y mo d h mi s us].
  cbn [dt_hour dt_minute dt_second dt_microsecond] in *.
  destruct td as [dd ds du]. cbn [td_days td_seconds td_microseconds] in *.
  set (t1 := ((o + 0 * 7) * 86400 + s + mi * 60 + h * 3600) * 1000000 + us).
  assert (E1 : t1 / 86400000000 = o) by (subst t1; Z.div_mod_to_equations; lia).
  assert (E2 : (t1 / 1000000) mod 86400 = h * 3600 + mi * 60 + s)
    by (subst t1; Z.div_mod_to_equations; lia).
  assert (E3 : t1 mod 1000000 = us) by (subst t1; Z.div_mod_to_equations; lia).
  rewrite E1, E2, E3.
  destruct (Z.ltb_spec 999999999 (Z.abs o)) as [Hbig|_]; [lia|].
  cbn [bind]. unfold timedelta_add.
  cbn [td_days td_seconds td_microseconds].
  rewrite timedelta_new_normal. cbv zeta.
  set (total := (o * 86400 + h * 3600 + mi * 60 + s) * 1000000 + us
                + ((dd * 86400 + ds) * 1000000 + du)).
  replace (((o + dd + 0 * 7) * 86400 + (h * 3600 + mi * 60 + s + ds) + 0 * 60
            + 0 * 3600) * 1000000 + (us + du)) with total by (subst total; lia).
  clearbody total.
  destruct (Z.ltb_spec 999999999 (Z.abs (total / 86400000000))) as [Hbig|Hok].
  - cbn [bind].
    destruct (Z.leb_spec 86400000000 total),
      (Z.ltb_spec total ((3652059 + 1) * 86400000000));
      cbn [andb]; try reflexivity.
    exfalso. revert Hbig. Z.div_mod_to_equations. lia.
  - cbn [bind td_days td_seconds td_microseconds].
    destruct (_ord2ymd (total / 86400000000)) as [[y' m'] d'].
    destruct (Z.leb_spec 86400000000 total),
      (Z.ltb_spec total ((3652059 + 1) * 86400000000)),
      (Z.ltb_spec 0 (total / 86400000000)),
      (Z.leb_spec (total / 86400000000) 3652059);
      cbn [andb]; try reflexivity;
      exfalso; Z.div_mod_to_equations; lia.
Qed.

Lemma of_microseconds_valid total :
  representable total = true ->
  valid_datetime (of_microseconds total)
  /\ microseconds_of (of_microseconds total) = total.
Proof.
  unfold representable, _MAXORDINAL. intros H.
  apply andb_true_iff in H as [Lo Hi].
  apply Z.leb_le in Lo. apply Z.ltb_lt in Hi.
  assert (Hd : 1 <= total / 86400000000 <= _MAXORDINAL)
    by (unfold _MAXORDINAL; Z.div_mod_to_equations; lia).
  pose proof (ord2ymd_spec _ Hd) as S.
  unfold of_microseconds, valid_datetime, microseconds_of, toordinal.
  cbv zeta.
  destruct (_ord2ymd (total / 86400000000)) as [[y m] d].
  destruct S as [V E].
  cbn [dt_year dt_month dt_day dt_hour dt_minute dt_second dt_microsecond].
  rewrite E. split; [split; [exact V|]|]; Z.div_mod_to_equations; lia.
Qed.

Lemma microseconds_of_representable t :
  valid_datetime t -> representable (microseconds_of t) = true.
Proof.
  intros Vt. pose proof (toordinal_range t Vt) as Ho.
  destruct Vt as (_ & Hh & Hmi & Hs & Hus).
  unfold representable, microseconds_of, _MAXORDINAL in *.
  apply andb_true_iff. split; [apply Z.leb_le | apply Z.ltb_lt]; lia.
Qed.

Lemma of_microseconds_of t :
  valid_datetime t -> of_microseconds (microseconds_of t) = t.
Proof.
  intros Vt. pose proof (toordinal_range t Vt) as Ho.
  destruct Vt as (Vd & Hh & Hmi & Hs & Hus).
  unfold of_microseconds, microseconds_of. cbv zeta.
  set (o := toordinal t) in *.
  set (total := (o * 86400 + dt_hour t * 3600 + dt_minute t * 60 + dt_second t)
                * 1000000 + dt_microsecond t).
  assert (E1 : total / 86400000000 = o)
    by (subst total; Z.div_mod_to_equations; lia).
  assert (E2 : (total / 1000000) mod 86400
               = dt_hour t * 3600 + dt_minute t * 60 + dt_second t)
    by (subst total; Z.div_mod_to_equations; lia).
  assert (E3 : total mod 1000000 = dt_microsecond t)
    by (subst total; Z.div_mod_to_equations; lia).
  rewrite E1, E2, E3. subst o. unfold toordinal.
  rewrite (ord2ymd_ymd2ord _ _ _ Vd).
  destruct t as [y mo d h mi s us].
  cbn [dt_year dt_month dt_day dt_hour dt_minute dt_second dt_microsecond] in *.
  f_equal; Z.div_mod_to_equations; lia.
Qed.

Lemma microseconds_of_inj a b :
  valid_datetime a -> valid_datetime b ->
  microseconds_of a = microseconds_of b -> a = b.
Proof.
  intros Va Vb E.
  rewrite <- (of_microseconds_of a Va), <- (of_microseconds_of b Vb), E.
  reflexivity.
Qed.

Lemma datetime_sub_normal t td :
  valid_datetime t -> valid_timedelta td ->
  datetime_sub t td =
  let total := microseconds_of t - total_microseconds td in
  if representable total then Ok (of_microseconds total)
  else Raise OverflowError.
Proof.
  intros Vt Vtd. cbv zeta. unfold datetime_sub, timedelta_neg.
  rewrite timedelta_new_normal. cbv zeta.
  set (neg := ((- td_days td + 0 * 7) * 86400 + - td_seconds td + 0 * 60
               + 0 * 3600) * 1000000 + - td_microseconds td).
  assert (En : neg = - total_microseconds td)
    by (subst neg; unfold total_microseconds; lia).
  pose proof (toordinal_range t Vt) as Ho. unfold _MAXORDINAL in Ho.
  assert (Bt : 86400000000 <= microseconds_of t < 3652060 * 86400000000).
  { destruct Vt as (_ & Hh & Hmi & Hs & Hus). unfold microseconds_of. lia. }
  destruct (Z.ltb_spec 999999999 (Z.abs (neg / 86400000000))) as [Hbig|Hok].
  - cbn [bind]. unfold representable, _MAXORDINAL.
    destruct (Z.leb_spec 86400000000
                         (microseconds_of t - total_microseconds td)),
      (Z.ltb_spec (microseconds_of t - total_microseconds td)
                  ((3652059 + 1) * 86400000000));
      cbn [andb]; try reflexivity.
    exfalso. revert Hbig. rewrite En. Z.div_mod_to_equations. lia.
  - cbn [bind]. rewrite datetime_add_normal.
    + cbv zeta.
      set (n := mktimedelta _ _ _).
      assert (Et : total_microseconds n = - total_microseconds td).
      { subst n. unfold total_microseconds at 1.
        cbn [td_days td_seconds td_microseconds].
        rewrite <- En. Z.div_mod_to_equations. lia. }
      rewrite Et, Z.add_opp_r. reflexivity.
    + exact Vt.
    + unfold valid_timedelta. cbn [td_days td_seconds td_microseconds].
      repeat split; try lia; try (apply Z.mod_pos_bound; lia).
Qed.

Lemma cmp_microseconds a b :
  valid_datetime a -> valid_datetime b ->
  match _cmp a b with
  | Lt => microseconds_of a < microseconds_of b
  | Eq => microseconds_of a = microseconds_of b
  | Gt => microseconds_of b < microseconds_of a
  end.
Proof.
  intros (Va & Ha) (Vb & Hb).
  destruct a as [y1 mo1 d1 h1 mi1 s1 us1], b as [y2 mo2 d2 h2 mi2 s2 us2].
  unfold _cmp, microseconds_of, toordinal.
  cbn [dt_year dt_month dt_day dt_hour dt_minute dt_second dt_microsecond] in *.
  pose proof (ymd2ord_lt y1 mo1 d1 y2 mo2 d2 Va Vb) as Lab.
  pose proof (ymd2ord_lt y2 mo2 d2 y1 mo1 d1 Vb Va) as Lba.
  unfold date_lt in Lab, Lba.
  destruct (Z.compare_spec y1 y2) as [->|Hy|Hy];
    [|specialize (Lab ltac:(lia)); lia | specialize (Lba ltac:(lia)); lia].
  destruct (Z.compare_spec mo1 mo2) as [->|Hm|Hm];
    [|specialize (Lab ltac:(lia)); lia | specialize (Lba ltac:(lia)); lia].
  destruct (Z.compare_spec d1 d2) as [->|Hd|Hd];
    [|specialize (Lab ltac:(lia)); lia | specialize (Lba ltac:(lia)); lia].
  clear Lab Lba.
  destruct (Z.compare_spec h1 h2) as [->|Hh|Hh]; [|lia|lia].
  destruct (Z.compare_spec mi1 mi2) as [->|Hmi|Hmi]; [|lia|lia].
  destruct (Z.compare_spec s1 s2) as [->|Hs|Hs]; [|lia|lia].
  destruct (Z.compare_spec us1 us2) as [->|Hus|Hus]; lia.
Qed.

Lemma datetime_le_microseconds a b :
  valid_datetime a -> valid_datetime b ->
  datetime_le a b = true <-> microseconds_of a <= microseconds_of b.
Proof.
  intros Va Vb. pose proof (cmp_microseconds a b Va Vb) as C.
  unfold datetime_le. destruct (_cmp a b); split; intros; try lia;
    try reflexivity; try discriminate.
Qed.

(** ** The matcher and the scan *)

Lemma match_unit_sound s u rest :
  match_unit s = Some (u, rest) -> is_unit u /\ s = u ++ rest.
Proof.
  unfold match_unit, is_unit. intros H.
  destruct s as [|c s]; [discriminate|].
  destruct c as [[] [] [] [] [] [] [] []]; try discriminate;
    try (injection H as <- <-; cbn; tauto).
  destruct s as [|c' s]; [injection H as <- <-; cbn; tauto|].
  destruct c' as [[] [] [] [] [] [] [] []];
    injection H as <- <-; cbn; tauto.
Qed.

Lemma match_spaces_sound s u rest :
  match_spaces s = Some (u, rest) ->
  exists ws, all_chars isspace ws = true /\ is_unit u /\ s = ws ++ u ++ rest.
Proof.
  induction s as [|c s IH]; cbn [match_spaces]; intros H.
  - discriminate.
  - destruct (isspace c) eqn:Ec.
    + destruct (match_spaces s) as [[u' rest']|] eqn:Em.
      * injection H as -> ->. destruct (IH eq_refl) as (ws & Hws & Hu & ->).
        exists (String c ws). cbn. rewrite Ec, Hws. auto.
      * apply match_unit_sound in H as [Hu E]. exists EmptyString. cbn. auto.
    + apply match_unit_sound in H as [Hu E]. exists EmptyString. cbn. auto.
Qed.

Lemma match_here_sound s v u rest :
  match_here s = Some (v, u, rest) ->
  exists ws, is_magnitude v /\ all_chars isspace ws = true /\ is_unit u
             /\ s = v ++ ws ++ u ++ rest.
Proof.
  revert v. induction s as [|c s IH]; cbn [match_here]; intros v H.
  - discriminate.
  - destruct (isdigit c) eqn:Ec; [|discriminate].
    destruct (match_here s) as [[[v' u'] rest']|] eqn:Em.
    + injection H as <- -> ->.
      destruct (IH v' eq_refl) as (ws & [Hv Hd] & Hws & Hu & ->).
      exists ws. repeat split; auto; [discriminate | cbn; rewrite Ec; exact Hd].
    + destruct (match_spaces s) as [[u' rest']|] eqn:Es; [|discriminate].
      injection H as <- -> ->.
      apply match_spaces_sound in Es as (ws & Hws & Hu & ->).
      exists ws. repeat split; auto;
        [discriminate | cbn; rewrite Ec; reflexivity].
Qed.

Lemma length_app a b :
  String.length (a ++ b) = (String.length a + String.length b)%nat.
Proof. induction a; cbn; congruence. Qed.

Lemma append_assoc a b c : (a ++ b) ++ c = a ++ b ++ c.
Proof. induction a; cbn; congruence. Qed.

Lemma findall_from_skip p s :
  findall_from (String.length p) (p ++ s) = findall_from 0 s.
Proof. induction p as [|c p IH]; [reflexivity | exact IH]. Qed.

(** The equation of the scan at a position where the pattern matches. *)
Lemma findall_match s v u rest :
  match_here s = Some (v, u, rest) ->
  findall s = (v, u) :: findall rest.
Proof.
  intros H.
  pose proof (match_here_sound _ _ _ _ H) as (ws & [Hv _] & _ & Hu & E).
  unfold findall. destruct s as [|c s]; [discriminate|].
  cbn [findall_from]. rewrite H. f_equal.
  destruct v as [|c' v]; [contradiction|].
  cbn in E. injection E as <- ->.
  rewrite <- (findall_from_skip (v ++ ws ++ u) rest).
  rewrite !append_assoc. f_equal.
  cbn [String.length]. rewrite !length_app. lia.
Qed.

(** ... and where it does not. *)
Lemma findall_no_match c s :
  match_here (String c s) = None -> findall (String c s) = findall s.
Proof. unfold findall. cbn [findall_from]. intros ->. reflexivity. Qed.

Lemma findall_from_tokens s :
  forall skip v u, In (v, u) (findall_from skip s) ->
  is_magnitude v /\ is_unit u.
Proof.
  induction s as [|c s IH]; intros skip v u Hin; [contradiction|].
  cbn [findall_from] in Hin. destruct skip as [|k]; [|exact (IH _ _ _ Hin)].
  destruct (match_here (String c s)) as [[[v' u'] rest]|] eqn:Em;
    [|exact (IH _ _ _ Hin)].
  destruct Hin as [E | Hin]; [|exact (IH _ _ _ Hin)].
  injection E as -> ->.
  apply match_here_sound in Em as (ws & Hv & _ & Hu & _). auto.
Qed.

Lemma digit_value_range c d : digit_value c = Some d -> 0 <= d <= 9.
Proof.
  unfold digit_value, isdigit, between.
  destruct (48 <=? N_of_ascii c)%N eqn:Lo; [|discriminate].
  destruct (N_of_ascii c <=? 57)%N eqn:Hi; [|discriminate].
  cbn [andb]. intros H. injection H as <-.
  apply N.leb_le in Lo, Hi. lia.
Qed.

Lemma int_from_nonneg s :
  forall acc n, 0 <= acc -> int_from acc s = Ok n -> 0 <= n.
Proof.
  induction s as [|c s IH]; cbn [int_from]; intros acc n Hacc H.
  - injection H as <-. exact Hacc.
  - destruct (digit_value c) as [d|] eqn:Ed; [|discriminate].
    apply digit_value_range in Ed. apply (IH (10 * acc + d) n); [lia | exact H].
Qed.

Lemma int_cases v :
  int v = (if within_digit_limit v then int_from 0 v else Raise ValueError)
  \/ v = EmptyString /\ int v = Raise ValueError.
Proof.
  unfold int, within_digit_limit. destruct v as [|c v]; [right; auto|left].
  rewrite N.ltb_antisym. destruct (_ <=? _)%N; reflexivity.
Qed.

Lemma int_nonneg v n : int v = Ok n -> 0 <= n.
Proof.
  destruct (int_cases v) as [-> | [_ ->]]; [|discriminate].
  destruct (within_digit_limit v); [|discriminate].
  apply int_from_nonneg. lia.
Qed.

Lemma int_from_raises v :
  forall acc e, int_from acc v = Raise e -> e = ValueError.
Proof.
  induction v as [|c v IH]; cbn [int_from]; intros acc e H; [discriminate H|].
  destruct (digit_value c); [exact (IH _ _ H)|]. injection H as <-. reflexivity.
Qed.

(** Whatever [int] raises is a [ValueError]. *)
Lemma int_raises v e : int v = Raise e -> e = ValueError.
Proof.
  destruct (int_cases v) as [-> | [_ ->]].
  - destruct (within_digit_limit v); [apply int_from_raises|].
    intros H. injection H as <-. reflexivity.
  - intros H. injection H as <-. reflexivity.
Qed.

(** What [int] converts is within the digit limit. *)
Lemma int_ok_limit v n : int v = Ok n -> within_digit_limit v = true.
Proof.
  destruct (int_cases v) as [-> | [_ ->]]; [|discriminate].
  destruct (within_digit_limit v); [reflexivity | discriminate].
Qed.

Lemma int_from_digits v :
  all_chars isdigit v = true ->
  forall acc, exists n, int_from acc v = Ok n.
Proof.
  induction v as [|c v IH]; cbn [all_chars int_from]; intros Hd acc.
  - eauto.
  - apply andb_true_iff in Hd as [Hc Hd]. unfold digit_value. rewrite Hc.
    apply (IH Hd).
Qed.

(** A magnitude within the digit limit converts ... *)
Lemma int_magnitude v :
  is_magnitude v -> within_digit_limit v = true ->
  exists n, int v = Ok n /\ 0 <= n.
Proof.
  intros [Hne Hd] Hl.
  destruct (int_cases v) as [E | [E _]]; [|contradiction].
  rewrite Hl in E. destruct (int_from_digits _ Hd 0) as [n Hn].
  exists n. rewrite E. split; [exact Hn|].
  apply (int_from_nonneg _ _ _ (Z.le_refl 0) Hn).
Qed.

(** ... and a longer one is a [ValueError]. *)
Lemma int_too_long v :
  within_digit_limit v = false -> int v = Raise ValueError.
Proof.
  intros Hl. destruct (int_cases v) as [E | [_ E]]; [|exact E].
  rewrite Hl in E. exact E.
Qed.

Lemma match_here_nondigit c s :
  isdigit c = false -> match_here (String c s) = None.
Proof. intros H. cbn [match_here]. rewrite H. reflexivity. Qed.

Lemma findall_noise_before pre s :
  all_chars nondigit pre = true -> findall (pre ++ s) = findall s.
Proof.
  induction pre as [|c pre IH]; cbn [all_chars append]; intros H;
    [reflexivity|].
  apply andb_true_iff in H as [Hc Hp]. apply negb_true_iff in Hc.
  rewrite findall_no_match by (apply match_here_nondigit, Hc).
  exact (IH Hp).
Qed.

Lemma append_empty s : s ++ EmptyString = s.
Proof. induction s; cbn; congruence. Qed.

Lemma findall_noise post :
  all_chars nondigit post = true -> findall post = [].
Proof.
  intros H. pose proof (findall_noise_before post EmptyString H) as E.
  rewrite append_empty in E. exact E.
Qed.

Lemma isdigit_lower_char c : isdigit (lower_char c) = isdigit c.
Proof. destruct c as [[] [] [] [] [] [] [] []]; reflexivity. Qed.

Lemma lower_app a b : lower (a ++ b) = lower a ++ lower b.
Proof. induction a; cbn; congruence. Qed.

Lemma nondigit_lower s :
  all_chars nondigit (lower s) = all_chars nondigit s.
Proof.
  induction s as [|c s IH]; cbn [lower all_chars]; [reflexivity|].
  unfold nondigit at 1 3. rewrite isdigit_lower_char, IH. reflexivity.
Qed.

Lemma lower_digits v : all_chars isdigit v = true -> lower v = v.
Proof.
  induction v as [|c v IH]; cbn [all_chars lower]; intros H; [reflexivity|].
  apply andb_true_iff in H as [Hc Hv]. rewrite (IH Hv). f_equal.
  revert Hc. destruct c as [[] [] [] [] [] [] [] []];
    (reflexivity || discriminate).
Qed.

(** A magnitude directly followed by text that does not start with a
    digit: the match takes the whole magnitude. *)
Lemma match_here_magnitude v tail :
  is_magnitude v ->
  match tail with String c _ => isdigit c = false | EmptyString => True end ->
  match_here (v ++ tail) =
  match match_spaces tail with
  | Some (u, rest) => Some (v, u, rest)
  | None => None
  end.
Proof.
  intros [Hne Hd] Ht. induction v as [|c v IH]; [contradiction|].
  cbn [all_chars] in Hd. apply andb_true_iff in Hd as [Hc Hd].
  cbn [append match_here]. rewrite Hc.
  destruct v as [|c' v].
  - cbn [append].
    assert (E : match_here tail = None).
    { destruct tail as [|t tail]; [reflexivity|].
      apply match_here_nondigit, Ht. }
    rewrite E. destruct (match_spaces tail) as [[u rest]|]; reflexivity.
  - rewrite (IH ltac:(discriminate) Hd).
    destruct (match_spaces tail) as [[u rest]|]; [reflexivity|].
    (* the shorter magnitude is followed by a digit *)
    cbn [append match_spaces].
    cbn [all_chars] in Hd. apply andb_true_iff in Hd as [Hc' _].
    assert (Es : isspace c' = false).
    { revert Hc'. destruct c' as [[] [] [] [] [] [] [] []];
        (reflexivity || discriminate). }
    rewrite Es. unfold match_unit.
    revert Hc'. destruct c' as [[] [] [] [] [] [] [] []];
      (reflexivity || discriminate).
Qed.

(** ** Subtracting months and fixed durations *)

Lemma float_limit_large : 12 * (10000 - INT_MIN) < float_limit.
Proof. vm_compute. reflexivity. Qed.

Lemma relativedelta_new_months n :
  0 <= n ->
  relativedelta_new 0 n
  = if float_overflows n then Raise OverflowError
    else Ok (mkrelativedelta (n / 12) (n mod 12)).
Proof.
  intros Hn. unfold relativedelta_new, _sign, float_overflows.
  pose proof float_limit_large as L. unfold INT_MIN in L.
  destruct (Z.leb_spec float_limit (Z.abs n)) as [Hover|Hfits].
  - destruct (Z.ltb_spec 11 (Z.abs n)); [reflexivity | lia].
  - destruct (Z.ltb_spec 11 (Z.abs n)) as [Hbig|Hsmall]; cbn [bind].
    + destruct (Z.ltb_spec n 0); [lia|].
      rewrite !Z.mul_1_r. reflexivity.
    + rewrite Z.div_small, Z.mod_small by lia. reflexivity.
Qed.

Lemma relativedelta_neg_months n :
  0 <= n ->
  relativedelta_neg (mkrelativedelta (n / 12) (n mod 12))
  = Ok (mkrelativedelta (- (n / 12)) (- (n mod 12))).
Proof.
  intros Hn.
  unfold relativedelta_neg, relativedelta_new. cbn [rd_years rd_months].
  pose proof (Z.mod_pos_bound n 12 ltac:(lia)).
  destruct (Z.ltb_spec 11 (Z.abs (- (n mod 12)))); [lia | reflexivity].
Qed.

Lemma days_in_month_range y m :
  1 <= m <= 12 -> 28 <= _days_in_month y m <= 31.
Proof.
  intros Hm. rewrite days_in_month_alt.
  month_cases m; destruct (_is_leap y); table_calc; lia.
Qed.

Lemma monthrange_days y m :
  1 <= m <= 12 -> monthrange y m = Ok (_days_in_month y m).
Proof.
  intros Hm. unfold monthrange.
  destruct (Z.leb_spec 1 m), (Z.leb_spec m 12); try lia. cbn [andb negb].
  rewrite days_in_month_alt. change (isleap y) with (_is_leap y).
  f_equal. month_cases m; reflexivity.
Qed.

Lemma datetime_add_zero t :
  valid_datetime t -> datetime_add t (mktimedelta 0 0 0) = Ok t.
Proof.
  intros Vt. rewrite datetime_add_normal; [|exact Vt|].
  - cbv zeta. change (total_microseconds (mktimedelta 0 0 0)) with 0.
    rewrite Z.add_0_r, (microseconds_of_representable t Vt),
      (of_microseconds_of t Vt). reflexivity.
  - unfold valid_timedelta. cbn. lia.
Qed.

Lemma relativedelta_rsub_months t n :
  valid_datetime t -> 0 <= n ->
  (delta <- relativedelta_new 0 n ;; relativedelta_rsub delta t)
  = months_before t n.
Proof.
  intros Vt Hn. rewrite (relativedelta_new_months n Hn).
  destruct Vt as ((Hy & Hm & Hd) & Hh & Hmi & Hs & Hus).
  unfold MINYEAR, MAXYEAR in *.
  unfold months_before. cbv zeta.
  set (k := dt_year t * 12 + (dt_month t - 1) - n).
  unfold float_overflows. rewrite (Z.abs_eq n Hn).
  pose proof float_limit_large as L. unfold INT_MIN in L |- *.
  destruct (Z.leb_spec float_limit n) as [Hover|Hfits]; cbn [bind].
  { destruct (Z.ltb_spec (k / 12) (-2147483648)); [reflexivity|].
    exfalso. subst k. Z.div_mod_to_equations. lia. }
  unfold relativedelta_rsub.
  rewrite (relativedelta_neg_months n Hn). cbn [bind].
  unfold relativedelta_radd. cbn [rd_years rd_months]. cbv zeta.
  pose proof (Z.mod_pos_bound n 12 ltac:(lia)) as Bn.
  pose proof (Z.mod_pos_bound k 12 ltac:(lia)) as Bk.
  assert (E : (if negb (- (n mod 12) =? 0)
               then
                 if 12 <? dt_month t + - (n mod 12)
                 then (dt_year t + - (n / 12) + 1,
                       dt_month t + - (n mod 12) - 12)
                 else if dt_month t + - (n mod 12) <? 1
                      then (dt_year t + - (n / 12) - 1,
                            dt_month t + - (n mod 12) + 12)
                      else (dt_year t + - (n / 12),
                            dt_month t + - (n mod 12))
               else (dt_year t + - (n / 12), dt_month t))
              = (k / 12, k mod 12 + 1)).
  { destruct (Z.eqb_spec (- (n mod 12)) 0); cbn [negb].
    - f_equal; subst k; Z.div_mod_to_equations; lia.
    - destruct (Z.ltb_spec 12 (dt_month t + - (n mod 12))); [lia|].
      destruct (Z.ltb_spec (dt_month t + - (n mod 12)) 1);
        f_equal; subst k; Z.div_mod_to_equations; lia. }
  rewrite E. clear E.
  rewrite monthrange_days by lia. cbn [bind].
  pose proof (days_in_month_range (k / 12) (k mod 12 + 1) ltac:(lia)) as Bd.
  assert (Hk : k / 12 <= 9999) by (subst k; Z.div_mod_to_equations; lia).
  unfold replace, c_int, INT_MIN, INT_MAX.
  destruct (Z.leb_spec (k mod 12 + 1) 2147483647); [|lia].
  destruct (Z.leb_spec (-2147483648) (k mod 12 + 1)); [|lia].
  destruct (Z.leb_spec (Z.min (_days_in_month (k / 12) (k mod 12 + 1))
                              (dt_day t)) 2147483647); [|lia].
  destruct (Z.leb_spec (-2147483648)
              (Z.min (_days_in_month (k / 12) (k mod 12 + 1)) (dt_day t)));
    [|lia].
  destruct (Z.leb_spec (k / 12) 2147483647); [|lia].
  destruct (Z.ltb_spec (k / 12) (-2147483648)) as [Hmin|Hint].
  { destruct (Z.leb_spec (-2147483648) (k / 12)); [lia | reflexivity]. }
  destruct (Z.leb_spec (-2147483648) (k / 12)); [|lia].
  cbn [andb negb].
  unfold _check_date_fields, MINYEAR, MAXYEAR.
  destruct (Z.ltb_spec (k / 12) 1) as [Hlow|Hok].
  - destruct (Z.leb_spec 1 (k / 12)); [lia|]. reflexivity.
  - destruct (Z.leb_spec 1 (k / 12)); [|lia].
    destruct (Z.leb_spec (k / 12) 9999); [|lia].
    destruct (Z.leb_spec 1 (k mod 12 + 1)); [|lia].
    destruct (Z.leb_spec (k mod 12 + 1) 12); [|lia].
    destruct (Z.leb_spec 1 (Z.min (_days_in_month (k / 12) (k mod 12 + 1))
                                  (dt_day t))); [|lia].
    destruct (Z.leb_spec (Z.min (_days_in_month (k / 12) (k mod 12 + 1))
                                (dt_day t))
                         (_days_in_month (k / 12) (k mod 12 + 1))); [|lia].
    cbn [andb negb bind].
    change (timedelta_new 0 0 0 0 0 0) with (Ok (mktimedelta 0 0 0)).
    cbn [bind]. apply datetime_add_zero.
    unfold valid_datetime, valid_date, MINYEAR, MAXYEAR.
    cbn [dt_year dt_month dt_day dt_hour dt_minute dt_second dt_microsecond].
    lia.
Qed.

Lemma timedelta_sub_normal t d s us mi h w :
  valid_datetime t ->
  (delta <- timedelta_new d s us mi h w ;; datetime_sub t delta)
  = microseconds_before t
      (((d + w * 7) * 86400 + s + mi * 60 + h * 3600) * 1000000 + us).
Proof.
  intros Vt. rewrite timedelta_new_normal. cbv zeta.
  set (total := ((d + w * 7) * 86400 + s + mi * 60 + h * 3600) * 1000000 + us).
  clearbody total. unfold microseconds_before. cbv zeta.
  pose proof (toordinal_range t Vt) as Ho. unfold _MAXORDINAL in Ho.
  assert (Bt : 86400000000 <= microseconds_of t < 3652060 * 86400000000).
  { destruct Vt as (_ & Hh & Hmi & Hs & Hus). unfold microseconds_of. lia. }
  destruct (Z.ltb_spec 999999999 (Z.abs (total / 86400000000))) as [Hbig|Hok].
  - cbn [bind]. unfold representable, _MAXORDINAL.
    destruct (Z.leb_spec 86400000000 (microseconds_of t - total)),
      (Z.ltb_spec (microseconds_of t - total) ((3652059 + 1) * 86400000000));
      cbn [andb]; try reflexivity.
    exfalso. revert Hbig. Z.div_mod_to_equations. lia.
  - cbn [bind]. rewrite datetime_sub_normal; [|exact Vt|].
    + cbv zeta. unfold total_microseconds.
      cbn [td_days td_seconds td_microseconds].
      replace ((total / 86400000000 * 86400 + (total / 1000000) mod 86400)
               * 1000000 + total mod 1000000) with total
        by (Z.div_mod_to_equations; lia).
      reflexivity.
    + unfold valid_timedelta. cbn [td_days td_seconds td_microseconds].
      repeat split; try lia; try (apply Z.mod_pos_bound; lia).
Qed.

Lemma loop_body_fixed now v u n :
  valid_datetime now -> int v = Ok n ->
  u = "w" \/ u = "d" \/ u = "h" \/ u = "m" ->
  loop_body now (v, u) = microseconds_before now (n * unit_microseconds u).
Proof.
  intros Vt Hv Hu. unfold loop_body. rewrite Hv. cbn [bind].
  destruct Hu as [-> | [-> | [-> | ->]]]; cbn [String.eqb Ascii.eqb Bool.eqb];
    rewrite (timedelta_sub_normal now) by exact Vt;
    f_equal; unfold unit_microseconds; cbn [String.eqb Ascii.eqb Bool.eqb]; lia.
Qed.

Lemma loop_body_months now v n :
  valid_datetime now -> int v = Ok n ->
  loop_body now (v, "mo") = months_before now n.
Proof.
  intros Vt Hv. unfold loop_body. rewrite Hv.
  cbn [bind String.eqb Ascii.eqb Bool.eqb].
  apply relativedelta_rsub_months; [exact Vt | exact (int_nonneg _ _ Hv)].
Qed.

Lemma microseconds_before_ok t us r :
  microseconds_before t us = Ok r ->
  valid_datetime r /\ microseconds_of r = microseconds_of t - us.
Proof.
  unfold microseconds_before. cbv zeta.
  destruct (representable (microseconds_of t - us)) eqn:R; [|discriminate].
  intros H. injection H as <-. exact (of_microseconds_valid _ R).
Qed.

Lemma months_before_ok t n r :
  valid_datetime t -> 0 <= n -> months_before t n = Ok r ->
  valid_datetime r /\ microseconds_of r <= microseconds_of t.
Proof.
  intros Vt Hn. unfold months_before. cbv zeta.
  set (k := dt_year t * 12 + (dt_month t - 1) - n).
  destruct (Z.ltb_spec (k / 12) INT_MIN) as [|_]; [discriminate|].
  destruct (Z.ltb_spec (k / 12) MINYEAR) as [|Hy]; [discriminate|].
  intros H. injection H as <-.
  pose proof Vt as ((Hty & Htm & Htd) & Hh & Hmi & Hs & Hus).
  unfold MINYEAR, MAXYEAR in *.
  pose proof (Z.mod_pos_bound k 12 ltac:(lia)) as Bk.
  pose proof (days_in_month_range (k / 12) (k mod 12 + 1) ltac:(lia)) as Bd.
  assert (Hk : k / 12 <= 9999) by (subst k; Z.div_mod_to_equations; lia).
  set (r := mkdatetime _ _ _ _ _ _ _).
  assert (Vr : valid_datetime r).
  { unfold valid_datetime, valid_date, MINYEAR, MAXYEAR. subst r.
    cbn [dt_year dt_month dt_day dt_hour dt_minute dt_second dt_microsecond].
    lia. }
  split; [exact Vr|].
  pose proof (cmp_microseconds r t Vr Vt) as C.
  destruct (_cmp r t) eqn:Ec; try lia.
  exfalso. revert Ec. unfold _cmp. subst r.
  cbn [dt_year dt_month dt_day dt_hour dt_minute dt_second dt_microsecond].
  destruct (Z.compare_spec (k / 12) (dt_year t)) as [Ey|Ey|Ey];
    [|discriminate | subst k; revert Ey; Z.div_mod_to_equations; lia].
  destruct (Z.compare_spec (k mod 12 + 1) (dt_month t)) as [Em|Em|Em];
    [|discriminate | subst k; revert Ey Em; Z.div_mod_to_equations; lia].
  rewrite Ey, Em.
  destruct (Z.compare_spec (Z.min (_days_in_month (dt_year t) (dt_month t))
                                  (dt_day t)) (dt_day t)) as [Ed|Ed|Ed];
    [|discriminate | lia].
  rewrite !Z.compare_refl. discriminate.
Qed.

(** ** The parser on single expressions *)

Ltac valid_now :=
  unfold valid_datetime, valid_date, MINYEAR, MAXYEAR; cbn; lia.

Lemma bind_ok {A} (r : result A) : (x <- r ;; Ok x) = r.
Proof. destruct r; reflexivity. Qed.

Lemma microseconds_before_cases t us :
  valid_datetime t -> 0 <= us ->
  (microseconds_of datetime_min <= microseconds_of t - us ->
   exists r, microseconds_before t us = Ok r /\ valid_datetime r
             /\ microseconds_of r = microseconds_of t - us)
  /\ (microseconds_of t - us < microseconds_of datetime_min ->
      microseconds_before t us = Raise OverflowError).
Proof.
  intros Vt Hus.
  pose proof (microseconds_of_representable t Vt) as R.
  unfold representable, _MAXORDINAL in R.
  apply andb_true_iff in R as [Lo Hi]. apply Z.leb_le in Lo.
  apply Z.ltb_lt in Hi.
  change (microseconds_of datetime_min) with 86400000000.
  unfold microseconds_before. cbv zeta. split; intros H.
  - assert (R : representable (microseconds_of t - us) = true).
    { unfold representable, _MAXORDINAL. apply andb_true_iff.
      split; [apply Z.leb_le | apply Z.ltb_lt]; lia. }
    rewrite R. eexists. split; [reflexivity|].
    exact (of_microseconds_valid _ R).
  - assert (R : representable (microseconds_of t - us) = false).
    { unfold representable. apply andb_false_iff. left.
      apply Z.leb_gt. lia. }
    rewrite R. reflexivity.
Qed.

Lemma microseconds_before_zero t :
  valid_datetime t -> microseconds_before t 0 = Ok t.
Proof.
  intros Vt. unfold microseconds_before. cbv zeta.
  rewrite Z.sub_0_r, (microseconds_of_representable t Vt),
    (of_microseconds_of t Vt). reflexivity.
Qed.

Lemma microseconds_before_twice t a b :
  valid_datetime t -> 0 <= a -> 0 <= b ->
  (r <- microseconds_before t a ;; microseconds_before r b)
  = microseconds_before t (a + b).
Proof.
  intros Vt Ha Hb.
  pose proof (microseconds_of_representable t Vt) as R.
  unfold representable, _MAXORDINAL in R.
  apply andb_true_iff in R as [Lo Hi]. apply Z.leb_le in Lo.
  apply Z.ltb_lt in Hi.
  unfold microseconds_before at 1. cbv zeta.
  destruct (representable (microseconds_of t - a)) eqn:Ra; cbn [bind].
  - destruct (of_microseconds_valid _ Ra) as [_ E].
    unfold microseconds_before. cbv zeta. rewrite E.
    replace (microseconds_of t - a - b) with (microseconds_of t - (a + b))
      by lia.
    reflexivity.
  - unfold microseconds_before. cbv zeta.
    assert (Rb : representable (microseconds_of t - (a + b)) = false).
    { unfold representable, _MAXORDINAL in *.
      apply andb_false_iff in Ra. apply andb_false_iff.
      destruct Ra as [Ra | Ra]; [left; apply Z.leb_gt in Ra; apply Z.leb_gt
                                | apply Z.ltb_ge in Ra]; lia. }
    rewrite Rb. reflexivity.
Qed.

Lemma parse_1w T :
  valid_datetime T ->
  parse_relative_time_string T "1w" = microseconds_before T (7 * day).
Proof.
  intros VT. unfold parse_relative_time_string.
  replace (findall (lower "1w")) with [("1", "w")] by reflexivity.
  cbn [loop]. rewrite bind_ok.
  exact (loop_body_fixed T "1" "w" 1 VT eq_refl ltac:(tauto)).
Qed.

(** C1.  With the current instant fixed to [T], the parser is a function
    of the string and agrees with the reference arithmetic: "1w" yields
    the instant seven days before [T], "1w 2d" the instant nine days
    before [T] (both tokens are applied), and "0d" yields [T] itself.
    Where the instant seven (nine) days before [T] would lie before
    [datetime.min], Python's subtraction raises [OverflowError], and so
    does the parser. *)
Theorem parse_reference_arithmetic (T : datetime) :
  valid_datetime T ->
  (* "1w": seven days before T *)
  ((microseconds_of datetime_min <= microseconds_of T - 7 * day ->
    exists r, parse_relative_time_string T "1w" = Ok r /\ valid_datetime r
              /\ microseconds_of r = microseconds_of T - 7 * day)
   /\ (microseconds_of T - 7 * day < microseconds_of datetime_min ->
       parse_relative_time_string T "1w" = Raise OverflowError))
  (* "1w 2d": nine days before T *)
  /\ ((microseconds_of datetime_min <= microseconds_of T - 9 * day ->
       exists r, parse_relative_time_string T "1w 2d" = Ok r
                 /\ valid_datetime r
                 /\ microseconds_of r = microseconds_of T - 9 * day)
      /\ (microseconds_of T - 9 * day < microseconds_of datetime_min ->
          parse_relative_time_string T "1w 2d" = Raise OverflowError))
  (* "0d": T itself *)
  /\ parse_relative_time_string T "0d" = Ok T.
Proof.
  intros VT. rewrite (parse_1w T VT).
  unfold parse_relative_time_string.
  assert (E2 : findall (lower "1w 2d") = [("1", "w"); ("2", "d")])
    by reflexivity.
  assert (E3 : findall (lower "0d") = [("0", "d")]) by reflexivity.
  rewrite E2, E3. cbn [loop]. rewrite !bind_ok.
  rewrite (loop_body_fixed T "1" "w" 1 VT eq_refl) by tauto.
  rewrite (loop_body_fixed T "0" "d" 0 VT eq_refl) by tauto.
  change (1 * unit_microseconds "w") with (7 * day).
  change (0 * unit_microseconds "d") with 0.
  split;
    [exact (microseconds_before_cases T (7 * day) VT ltac:(unfold day; lia))|].
  split; [|exact (microseconds_before_zero T VT)].
  assert (E : (now' <- microseconds_before T (7 * day) ;;
               now'' <- loop_body now' ("2", "d") ;; Ok now'')
              = microseconds_before T (9 * day)).
  { replace (9 * day) with (7 * day + 2 * day) by (unfold day; lia).
    rewrite <- (microseconds_before_twice T (7 * day) (2 * day) VT)
      by (unfold day; lia).
    destruct (microseconds_before T (7 * day)) as [r|e] eqn:Er; [|reflexivity].
    cbn [bind]. rewrite bind_ok.
    apply microseconds_before_ok in Er as [Vr _].
    exact (loop_body_fixed r "2" "d" 2 Vr eq_refl ltac:(tauto)). }
  rewrite E.
  exact (microseconds_before_cases T (9 * day) VT ltac:(unfold day; lia)).
Qed.

Lemma parse_reference_arithmetic_witness :
  valid_datetime T0
  /\ exists r, parse_relative_time_string T0 "1w 2d" = Ok r
               /\ valid_datetime r
               /\ microseconds_of r = microseconds_of T0 - 9 * day.
Proof.
  assert (V : valid_datetime T0) by valid_now.
  split; [exact V|].
  apply (proj1 (proj1 (proj2 (parse_reference_arithmetic T0 V)))).
  vm_compute. discriminate.
Defined.

Lemma isspace_not_digit c : isspace c = true -> isdigit c = false.
Proof.
  destruct c as [[] [] [] [] [] [] [] []]; (reflexivity || discriminate).
Qed.

Lemma match_spaces_mo ws rest :
  all_chars isspace ws = true ->
  match_spaces (ws ++ "mo" ++ rest) = Some ("mo", rest).
Proof.
  induction ws as [|c ws IH]; intros H; [reflexivity|].
  cbn [all_chars] in H. apply andb_true_iff in H as [Hc Hw].
  change (String c ws ++ "mo" ++ rest) with (String c (ws ++ "mo" ++ rest)).
  cbn [match_spaces]. rewrite Hc, (IH Hw). reflexivity.
Qed.

Lemma match_here_mo v ws rest :
  is_magnitude v -> all_chars isspace ws = true ->
  match_here (v ++ ws ++ "mo" ++ rest) = Some (v, "mo", rest).
Proof.
  intros Hv Hw. rewrite (match_here_magnitude v (ws ++ "mo" ++ rest) Hv).
  - rewrite (match_spaces_mo ws rest Hw). reflexivity.
  - destruct ws as [|c ws]; [reflexivity|].
    cbn [append all_chars] in *. apply andb_true_iff in Hw as [Hc _].
    exact (isspace_not_digit c Hc).
Qed.

Lemma match_unit_m s rest :
  match_unit s = Some ("m", rest) -> forall r, rest <> String "o" r.
Proof.
  unfold match_unit. intros H r.
  destruct s as [|c s]; [discriminate H|].
  destruct c as [[] [] [] [] [] [] [] []]; try discriminate H.
  destruct s as [|c' s]; [injection H as <-; discriminate|].
  destruct c' as [[] [] [] [] [] [] [] []];
    try discriminate H; injection H as <-; discriminate.
Qed.

Lemma match_spaces_m s rest :
  match_spaces s = Some ("m", rest) -> forall r, rest <> String "o" r.
Proof.
  induction s as [|c s IH]; cbn [match_spaces]; intros H;
    [discriminate H|].
  destruct (isspace c);
    [destruct (match_spaces s) as [[u rest']|] eqn:Em|];
    try exact (match_unit_m _ _ H).
  injection H as -> ->. exact (IH eq_refl).
Qed.

Lemma match_here_m s :
  forall v rest, match_here s = Some (v, "m", rest) ->
  forall r, rest <> String "o" r.
Proof.
  induction s as [|c s IH]; cbn [match_here]; intros v rest H;
    [discriminate H|].
  destruct (isdigit c); [|discriminate H].
  destruct (match_here s) as [[[v' u'] rest']|] eqn:Em.
  - injection H as <- -> ->. exact (IH v' rest eq_refl).
  - destruct (match_spaces s) as [[u' rest']|] eqn:Es; [|discriminate H].
    injection H as <- -> ->. exact (match_spaces_m s rest Es).
Qed.

Lemma microseconds_of_split t :
  microseconds_of t = toordinal t * day + time_of_day t.
Proof. unfold microseconds_of, time_of_day, day. lia. Qed.

Lemma time_of_day_bounds t :
  valid_datetime t -> 0 <= time_of_day t < day.
Proof.
  intros (_ & Hh & Hmi & Hs & Hus). unfold time_of_day, day. lia.
Qed.

(** C2.  Token precedence: "1mo" is scanned as the one token (1, mo);
    after any magnitude the text "mo" is matched as the unit mo, and no
    match with the unit m stops in front of an "o", so the "m" of "mo"
    is never taken for minutes; parsing "1mo" subtracts one calendar
    month, parsing "1m" sixty seconds, and the two results differ for
    every current instant [T]. *)
Theorem month_token_precedence (T : datetime) :
  valid_datetime T ->
  (* the scan of "1mo" yields the single token (1, mo) *)
  findall (lower "1mo") = [("1", "mo")]
  (* after any magnitude and white space, "mo" is taken as the unit mo *)
  /\ (forall v ws rest,
        is_magnitude v -> all_chars isspace ws = true ->
        match_here (v ++ ws ++ "mo" ++ rest) = Some (v, "mo", rest))
  (* and a match with the unit m is never followed by "o" *)
  /\ (forall s v rest, match_here s = Some (v, "m", rest) ->
        forall r, rest <> String "o" r)
  (* "1mo" is one calendar month, "1m" is sixty seconds *)
  /\ parse_relative_time_string T "1mo" = months_before T 1
  /\ parse_relative_time_string T "1m" = microseconds_before T 60000000
  /\ parse_relative_time_string T "1mo" <> parse_relative_time_string T "1m".
Proof.
  intros VT.
  assert (Emo : parse_relative_time_string T "1mo" = months_before T 1).
  { unfold parse_relative_time_string.
    replace (findall (lower "1mo")) with [("1", "mo")] by reflexivity.
    cbn [loop]. rewrite bind_ok. exact (loop_body_months T "1" 1 VT eq_refl). }
  assert (Em : parse_relative_time_string T "1m"
               = microseconds_before T 60000000).
  { unfold parse_relative_time_string.
    replace (findall (lower "1m")) with [("1", "m")] by reflexivity.
    cbn [loop]. rewrite bind_ok.
    exact (loop_body_fixed T "1" "m" 1 VT eq_refl ltac:(tauto)). }
  split; [reflexivity|]. split; [exact match_here_mo|].
  split; [exact match_here_m|].
  split; [exact Emo|]. split; [exact Em|].
  rewrite Emo, Em. intros E.
  unfold months_before, microseconds_before in E. cbv zeta in E.
  assert (Hint : ((dt_year T * 12 + (dt_month T - 1) - 1) / 12 <? INT_MIN)
                 = false).
  { destruct VT as ((Hy & Hm & _) & _). unfold MINYEAR, INT_MIN in *.
    apply Z.ltb_ge. Z.div_mod_to_equations. lia. }
  rewrite Hint in E. clear Hint.
  destruct ((dt_year T * 12 + (dt_month T - 1) - 1) / 12 <? MINYEAR);
    destruct (representable (microseconds_of T - 60000000)) eqn:R;
    try discriminate E.
  injection E as E.
  destruct (of_microseconds_valid _ R) as [Vr Er]. rewrite <- E in Vr, Er.
  pose proof (time_of_day_bounds T VT) as B1.
  pose proof (time_of_day_bounds _ Vr) as B2.
  rewrite !microseconds_of_split in Er.
  change (time_of_day (mkdatetime _ _ _ _ _ _ _)) with (time_of_day T)
    in B2, Er.
  unfold day in *. lia.
Qed.

Lemma month_token_precedence_witness :
  valid_datetime T0
  /\ parse_relative_time_string T0 "1mo" <> parse_relative_time_string T0 "1m".
Proof.
  assert (V : valid_datetime T0) by valid_now.
  split; [exact V|].
  exact (proj2 (proj2 (proj2 (proj2 (proj2 (month_token_precedence T0 V)))))).
Defined.

(** C3.  Month subtraction is calendar-aware and clamps at the end of
    the month: "1mo" lands in the month before, at the same time of
    day, on the same day of the month when that month has such a day
    and else on its last day.  From March 31 of any year it yields the
    last day of February of that year, the 29th in a leap year and the
    28th otherwise. *)
Theorem month_end_clamping (T : datetime) :
  valid_datetime T ->
  (* one month back, unless T is in January of year 1 *)
  (~ (dt_year T = MINYEAR /\ dt_month T = 1) ->
   exists r,
     parse_relative_time_string T "1mo" = Ok r
     /\ valid_datetime r
     /\ (dt_year r, dt_month r)
        = (if dt_month T =? 1 then (dt_year T - 1, 12)
           else (dt_year T, dt_month T - 1))
     /\ dt_day r
        = (if dt_day T <=? _days_in_month (dt_year r) (dt_month r)
           then dt_day T
           else _days_in_month (dt_year r) (dt_month r))
     /\ (dt_hour r, dt_minute r, dt_second r, dt_microsecond r)
        = (dt_hour T, dt_minute T, dt_second T, dt_microsecond T))
  (* from March 31 to the last day of February *)
  /\ (dt_month T = 3 -> dt_day T = 31 ->
      parse_relative_time_string T "1mo"
      = Ok (mkdatetime (dt_year T) 2 (if _is_leap (dt_year T) then 29 else 28)
                       (dt_hour T) (dt_minute T) (dt_second T)
                       (dt_microsecond T))).
Proof.
  intros VT.
  assert (Emo : parse_relative_time_string T "1mo" = months_before T 1).
  { unfold parse_relative_time_string.
    replace (findall (lower "1mo")) with [("1", "mo")] by reflexivity.
    cbn [loop]. rewrite bind_ok. exact (loop_body_months T "1" 1 VT eq_refl). }
  rewrite Emo.
  pose proof VT as ((Hy & Hm & Hd) & Hh & Hmi & Hs & Hus).
  unfold MINYEAR, MAXYEAR in *.
  unfold months_before. cbv zeta. unfold MINYEAR, INT_MIN.
  set (k := dt_year T * 12 + (dt_month T - 1) - 1).
  assert (Hint : (k / 12 <? -2147483648) = false)
    by (apply Z.ltb_ge; subst k; Z.div_mod_to_equations; lia).
  rewrite Hint. clear Hint.
  split.
  - intros Hjan.
    assert (Ek : (k / 12, k mod 12 + 1)
                 = (if dt_month T =? 1 then (dt_year T - 1, 12)
                    else (dt_year T, dt_month T - 1))).
    { destruct (Z.eqb_spec (dt_month T) 1); f_equal; subst k;
        Z.div_mod_to_equations; lia. }
    assert (Hk : 1 <= k / 12 <= 9999)
      by (subst k; Z.div_mod_to_equations; lia).
    pose proof (Z.mod_pos_bound k 12 ltac:(lia)) as Bk.
    pose proof (days_in_month_range (k / 12) (k mod 12 + 1) ltac:(lia)) as Bd.
    destruct (Z.ltb_spec (k / 12) 1); [lia|].
    eexists. split; [reflexivity|].
    cbn [dt_year dt_month dt_day dt_hour dt_minute dt_second dt_microsecond].
    split; [unfold valid_datetime, valid_date, MINYEAR, MAXYEAR;
            cbn [dt_year dt_month dt_day dt_hour dt_minute dt_second
                 dt_microsecond]; lia|].
    split; [exact Ek|]. split; [|reflexivity].
    destruct (Z.leb_spec (dt_day T) (_days_in_month (k / 12) (k mod 12 + 1)));
      lia.
  - intros E3 E31.
    assert (Ey : k / 12 = dt_year T) by (subst k; Z.div_mod_to_equations; lia).
    assert (Em : k mod 12 + 1 = 2) by (subst k; Z.div_mod_to_equations; lia).
    rewrite Ey, Em, E31.
    destruct (Z.ltb_spec (dt_year T) 1); [lia|].
    unfold _days_in_month. cbn [Z.eqb Pos.eqb andb].
    destruct (_is_leap (dt_year T)); reflexivity.
Qed.

Lemma month_end_clamping_witness :
  valid_datetime T0
  /\ parse_relative_time_string T0 "1mo"
     = Ok (mkdatetime 2024 2 29 12 30 15 123456).
Proof.
  assert (V : valid_datetime T0) by valid_now.
  split; [exact V|].
  exact (proj2 (month_end_clamping T0 V) eq_refl eq_refl).
Defined.

Lemma parse_no_tokens T s :
  findall (lower s) = [] -> parse_relative_time_string T s = Ok T.
Proof. unfold parse_relative_time_string. intros ->. reflexivity. Qed.

Lemma parse_noise_before T pre s :
  all_chars nondigit pre = true ->
  parse_relative_time_string T (pre ++ s) = parse_relative_time_string T s.
Proof.
  intros H. unfold parse_relative_time_string.
  rewrite lower_app, findall_noise_before; [reflexivity|].
  rewrite nondigit_lower. exact H.
Qed.

Lemma parse_noise_after_1w T post :
  all_chars nondigit post = true ->
  parse_relative_time_string T ("1w" ++ post)
  = parse_relative_time_string T "1w".
Proof.
  intros H. unfold parse_relative_time_string.
  rewrite lower_app.
  rewrite (findall_match (lower "1w" ++ lower post) "1" "w" (lower post))
    by reflexivity.
  rewrite findall_noise by (rewrite nondigit_lower; exact H).
  reflexivity.
Qed.

(** C6.  Noise tolerance and identity on input without tokens: text
    that does not match the pattern is ignored without error, so
    parsing "fetch since 1w please" yields the instant seven days
    before [T], and parsing the empty string, "xyz" or any string with
    no matching token returns [T] unchanged. *)
Theorem noise_tolerance (T : datetime) :
  valid_datetime T ->
  (* text without digits before an expression is ignored *)
  (forall pre s, all_chars nondigit pre = true ->
     parse_relative_time_string T (pre ++ s) = parse_relative_time_string T s)
  (* text without digits around the token 1w is ignored *)
  /\ (forall pre post,
        all_chars nondigit pre = true -> all_chars nondigit post = true ->
        parse_relative_time_string T (pre ++ "1w" ++ post)
        = parse_relative_time_string T "1w")
  /\ (microseconds_of datetime_min <= microseconds_of T - 7 * day ->
      exists r,
        parse_relative_time_string T "fetch since 1w please" = Ok r
        /\ valid_datetime r
        /\ microseconds_of r = microseconds_of T - 7 * day)
  (* no token at all: the current instant, and no error *)
  /\ (forall s, findall (lower s) = [] ->
        parse_relative_time_string T s = Ok T)
  /\ parse_relative_time_string T EmptyString = Ok T
  /\ parse_relative_time_string T "xyz" = Ok T.
Proof.
  intros VT.
  assert (N : forall pre post,
             all_chars nondigit pre = true -> all_chars nondigit post = true ->
             parse_relative_time_string T (pre ++ "1w" ++ post)
             = parse_relative_time_string T "1w").
  { intros pre post Hpre Hpost.
    rewrite (parse_noise_before T pre _ Hpre).
    exact (parse_noise_after_1w T post Hpost). }
  split; [intros pre s; exact (parse_noise_before T pre s)|].
  split; [exact N|].
  split.
  - intros Hr.
    change "fetch since 1w please" with ("fetch since " ++ "1w" ++ " please").
    rewrite (N "fetch since " " please" eq_refl eq_refl).
    rewrite (parse_1w T VT).
    exact (proj1 (microseconds_before_cases T (7 * day) VT
                    ltac:(unfold day; lia)) Hr).
  - split; [exact (parse_no_tokens T)|].
    split; [exact (parse_no_tokens T EmptyString eq_refl)
           | exact (parse_no_tokens T "xyz" eq_refl)].
Qed.

Lemma noise_tolerance_witness :
  valid_datetime T0
  /\ parse_relative_time_string T0 " since 1w, please"
     = parse_relative_time_string T0 "1w".
Proof.
  assert (V : valid_datetime T0) by valid_now.
  split; [exact V|].
  exact (proj1 (proj2 (noise_tolerance T0 V)) " since " ", please"
           eq_refl eq_refl).
Defined.

(** ** The parser on every expression *)

Lemma unit_microseconds_nonneg u : 0 <= unit_microseconds u.
Proof.
  unfold unit_microseconds.
  repeat match goal with
  | |- context [if ?c then _ else _] => destruct c
  end; lia.
Qed.

(** A token that is subtracted has a magnitude that [int] converted. *)
Lemma loop_body_int now tok r :
  loop_body now tok = Ok r -> exists n, int (fst tok) = Ok n /\ 0 <= n.
Proof.
  destruct tok as [v u]. unfold loop_body. cbn [fst].
  destruct (int v) as [n|e] eqn:E; [|discriminate].
  intros _. exists n. split; [reflexivity | exact (int_nonneg v n E)].
Qed.

Lemma loop_body_le now tok r :
  valid_datetime now -> is_token tok -> loop_body now tok = Ok r ->
  valid_datetime r /\ microseconds_of r <= microseconds_of now.
Proof.
  intros Vn [Hv Hu] H. destruct (loop_body_int now tok r H) as (n & Hn & Hpos).
  destruct tok as [v u]. cbn [fst snd] in *.
  destruct Hu as [-> | Hu].
  - rewrite (loop_body_months now v n Vn Hn) in H.
    exact (months_before_ok now n r Vn Hpos H).
  - rewrite (loop_body_fixed now v u n Vn Hn Hu) in H.
    apply microseconds_before_ok in H as [Vr E]. split; [exact Vr|].
    pose proof (unit_microseconds_nonneg u). nia.
Qed.

Lemma loop_le toks :
  Forall is_token toks ->
  forall now r, valid_datetime now -> loop toks now = Ok r ->
  valid_datetime r /\ microseconds_of r <= microseconds_of now.
Proof.
  induction 1 as [|tok toks Htok _ IH]; intros now r Vn H; cbn [loop] in H.
  - injection H as <-. split; [exact Vn | lia].
  - destruct (loop_body now tok) as [now'|e] eqn:Eb; [|discriminate].
    cbn [bind] in H.
    destruct (loop_body_le now tok now' Vn Htok Eb) as [Vn' L1].
    destruct (IH now' r Vn' H) as [Vr L2]. split; [exact Vr | lia].
Qed.

Lemma findall_tokens s : Forall is_token (findall s).
Proof.
  apply Forall_forall. intros [v u] Hin.
  exact (findall_from_tokens s 0 v u Hin).
Qed.

(** C10.  Monotonicity: whatever the string, an instant the parser
    returns is less than or equal to the current instant [T] in
    Python's order of datetimes; the parser never yields an instant in
    the future. *)
Theorem parse_never_in_future (T : datetime) (time_str : string)
    (r : datetime) :
  valid_datetime T ->
  parse_relative_time_string T time_str = Ok r ->
  datetime_le r T = true.
Proof.
  intros VT H. unfold parse_relative_time_string in H.
  destruct (loop_le _ (findall_tokens _) T r VT H) as [Vr L].
  apply (datetime_le_microseconds r T Vr VT). exact L.
Qed.

Lemma parse_never_in_future_witness :
  datetime_le (mkdatetime 2024 2 20 11 30 15 123456) T0 = true.
Proof.
  apply (parse_never_in_future T0 "1mo 1w 2d 1h").
  - valid_now.
  - vm_compute. reflexivity.
Defined.

Lemma lower_unit u : is_unit u -> lower u = u.
Proof. intros [-> | [-> | [-> | [-> | ->]]]]; reflexivity. Qed.

Lemma lower_token tok : is_token tok -> lower (token_text tok) = token_text tok.
Proof.
  intros [[_ Hv] Hu]. unfold token_text.
  rewrite !lower_app, (lower_digits _ Hv), (lower_unit _ Hu). reflexivity.
Qed.

Lemma lower_expression toks :
  Forall is_token toks -> lower (expression toks) = expression toks.
Proof.
  induction 1 as [|tok toks Htok _ IH]; cbn [expression]; [reflexivity|].
  rewrite lower_app, (lower_token tok Htok), IH. reflexivity.
Qed.

Lemma findall_token tok rest :
  is_token tok -> findall (token_text tok ++ rest) = tok :: findall rest.
Proof.
  intros [Hv Hu]. destruct tok as [v u]. cbn [fst snd] in *.
  unfold token_text. cbn [fst snd]. rewrite !append_assoc.
  assert (M : match_here (v ++ u ++ " " ++ rest) = Some (v, u, " " ++ rest)).
  { rewrite (match_here_magnitude v (u ++ " " ++ rest) Hv)
      by (destruct Hu as [-> | [-> | [-> | [-> | ->]]]]; reflexivity).
    destruct Hu as [-> | [-> | [-> | [-> | ->]]]]; reflexivity. }
  rewrite (findall_match _ _ _ _ M).
  change (" " ++ rest) with (String " " rest).
  rewrite (findall_no_match " " rest) by reflexivity. reflexivity.
Qed.

Lemma findall_expression toks :
  Forall is_token toks -> findall (expression toks) = toks.
Proof.
  induction 1 as [|tok toks Htok _ IH]; cbn [expression]; [reflexivity|].
  rewrite (findall_token tok _ Htok), IH. reflexivity.
Qed.

Lemma loop_app a : forall b now,
  loop (a ++ b)%list now = (t <- loop a now ;; loop b t).
Proof.
  induction a as [|tok a IH]; intros b now; cbn [loop app bind]; [reflexivity|].
  destruct (loop_body now tok) as [now'|e]; cbn [bind];
    [apply IH | reflexivity].
Qed.

(** C7.  Tokens are applied from left to right, in the order in which
    they appear in the string; a unit may repeat; and the order can be
    observed: from March 31, a month and then a day ends on February
    28, a day and then a month on February 29. *)
Theorem tokens_applied_in_textual_order :
  (* the tokens of an expression are applied in the order written *)
  (forall toks T, Forall is_token toks ->
     parse_relative_time_string T (expression toks) = loop toks T)
  (* and sequentially: what comes first is applied first *)
  /\ (forall a b T, loop (a ++ b)%list T = (t <- loop a T ;; loop b t))
  (* a unit may repeat *)
  /\ (forall T, valid_datetime T ->
        parse_relative_time_string T "1d 1d"
        = parse_relative_time_string T "2d")
  (* the order shows when a month meets days on the 31st *)
  /\ parse_relative_time_string (mkdatetime 2024 3 31 12 30 15 123456) "1mo 1d"
     = Ok (mkdatetime 2024 2 28 12 30 15 123456)
  /\ parse_relative_time_string (mkdatetime 2024 3 31 12 30 15 123456) "1d 1mo"
     = Ok (mkdatetime 2024 2 29 12 30 15 123456).
Proof.
  split.
  { intros toks T H. unfold parse_relative_time_string.
    rewrite (lower_expression toks H), (findall_expression toks H).
    reflexivity. }
  split; [intros a b T; apply loop_app|].
  split; [|split; vm_compute; reflexivity].
  intros T VT. unfold parse_relative_time_string.
  replace (findall (lower "1d 1d")) with [("1", "d"); ("1", "d")]
    by reflexivity.
  replace (findall (lower "2d")) with [("2", "d")] by reflexivity.
  cbn [loop]. rewrite !bind_ok.
  rewrite (loop_body_fixed T "1" "d" 1 VT eq_refl) by tauto.
  rewrite (loop_body_fixed T "2" "d" 2 VT eq_refl) by tauto.
  change (1 * unit_microseconds "d") with day.
  change (2 * unit_microseconds "d") with (day + day).
  rewrite <- (microseconds_before_twice T day day VT) by (unfold day; lia).
  destruct (microseconds_before T day) as [r|e] eqn:Er; [|reflexivity].
  cbn [bind]. rewrite bind_ok.
  apply microseconds_before_ok in Er as [Vr _].
  exact (loop_body_fixed r "1" "d" 1 Vr eq_refl ltac:(tauto)).
Qed.

Lemma tokens_applied_in_textual_order_witness :
  parse_relative_time_string T0 "1mo 1d " = loop [("1", "mo"); ("1", "d")] T0.
Proof.
  apply (proj1 tokens_applied_in_textual_order [("1", "mo"); ("1", "d")] T0).
  repeat constructor; cbn; (discriminate || tauto).
Defined.

(** ** The minimum identifier of a fetch session *)

Lemma found_min_id_print l st : found_min_id (print l st) = found_min_id st.
Proof. reflexivity. Qed.

Lemma callback_minimum verbose st d ids :
  is_minimum (found_min_id st) ids ->
  is_minimum (found_min_id (callback verbose st d))
             (ids ++ processed_ids [d])%list.
Proof.
  intros H. destruct d as [msg|msg]; cbn [callback processed_ids flat_map].
  - unfold message_processor.
    set (st' := if verbose then _ else _).
    assert (E : found_min_id st' = found_min_id st)
      by (subst st'; destruct verbose; reflexivity).
    rewrite E. cbn [app].
    destruct (found_min_id st) as [cur|]; cbn [is_minimum] in H.
    + destruct H as [Hin Hall].
      destruct (Z.ltb_spec (msg_id msg) cur) as [Hlt|Hge];
        [cbn [found_min_id] | rewrite E]; cbn [is_minimum]; split.
      * apply in_or_app. right. left. reflexivity.
      * apply Forall_app. split.
        -- revert Hall. apply Forall_impl. intros; lia.
        -- constructor; [lia | constructor].
      * apply in_or_app. left. exact Hin.
      * apply Forall_app. split; [exact Hall|].
        constructor; [lia | constructor].
    + subst ids. cbn [found_min_id is_minimum app]. split.
      * left. reflexivity.
      * constructor; [lia | constructor].
  - cbn [app]. rewrite app_nil_r. exact H.
Qed.

Lemma processed_ids_app a b :
  processed_ids (a ++ b)%list = (processed_ids a ++ processed_ids b)%list.
Proof. apply flat_map_app. Qed.

Lemma fold_minimum verbose ds :
  forall st ids,
  is_minimum (found_min_id st) ids ->
  is_minimum (found_min_id (fold_left (callback verbose) ds st))
             (ids ++ processed_ids ds)%list.
Proof.
  induction ds as [|d ds IH]; intros st ids H; cbn [fold_left].
  - cbn. rewrite app_nil_r. exact H.
  - change (d :: ds) with ([d] ++ ds)%list.
    rewrite processed_ids_app, app_assoc.
    apply IH, callback_minimum, H.
Qed.

Lemma session_after_minimum verbose ds :
  is_minimum (found_min_id (session_after verbose ds)) (processed_ids ds).
Proof. exact (fold_minimum verbose ds start [] eq_refl). Qed.

Lemma is_minimum_unique o o' ids ids' :
  Permutation ids ids' -> is_minimum o ids -> is_minimum o' ids' -> o = o'.
Proof.
  intros P H H'. destruct o as [m|], o' as [m'|]; cbn [is_minimum] in *.
  - destruct H as [Hin Hall], H' as [Hin' Hall'].
    rewrite Forall_forall in Hall, Hall'.
    pose proof (Hall m' (Permutation_in _ (Permutation_sym P) Hin')).
    pose proof (Hall' m (Permutation_in _ P Hin)).
    f_equal. lia.
  - subst ids'. apply Permutation_sym, Permutation_nil in P. subst ids.
    destruct H as [[] _].
  - subst ids. apply Permutation_nil in P. subst ids'.
    destruct H' as [[] _].
  - reflexivity.
Qed.

(** C8.  The minimum observed identifier: it is unset when the session
    starts and, after every callback, it is the smallest identifier
    among the messages processed so far, in whatever order they were
    delivered; messages delivered with the identifiers 50, 48, 52 leave
    it at 48; and this is the value [fetch] ends with. *)
Theorem min_observed_id_invariant (verbose : bool) :
  (* unset at the start *)
  found_min_id (session_after verbose []) = None
  (* the state after a longer delivery continues the state after a
     shorter one *)
  /\ (forall pre post,
        session_after verbose (pre ++ post)%list
        = fold_left (callback verbose) post (session_after verbose pre))
  (* after any delivery: the minimum of what was processed *)
  /\ (forall ds,
        is_minimum (found_min_id (session_after verbose ds))
                   (processed_ids ds))
  (* whatever the order *)
  /\ (forall ds ds', Permutation ds ds' ->
        found_min_id (session_after verbose ds)
        = found_min_id (session_after verbose ds'))
  /\ (forall ds, processed_ids ds = [50; 48; 52] ->
        found_min_id (session_after verbose ds) = Some 48)
  (* and this is the state [fetch] ends with *)
  /\ (forall local tg T channel min_id limit since,
        let r := fetch local tg T channel min_id limit since verbose in
        forall req, requests r = [req] ->
        is_minimum (found_min_id (final r)) (processed_ids (fst (tg req)))).
Proof.
  split; [reflexivity|].
  split; [intros pre post; apply fold_left_app|].
  split; [exact (session_after_minimum verbose)|].
  split.
  { intros ds ds' P.
    apply (is_minimum_unique _ _ (processed_ids ds) (processed_ids ds')).
    - apply Permutation_flat_map, P.
    - apply session_after_minimum.
    - apply session_after_minimum. }
  split.
  { intros ds E.
    apply (is_minimum_unique _ _ (processed_ids ds) [50; 48; 52]).
    - rewrite E. apply Permutation_refl.
    - apply session_after_minimum.
    - cbn. split; [tauto|]. repeat constructor; lia. }
  intros local tg T channel min_id limit since r req. subst r. unfold fetch.
  destruct (match since with
            | Some time_str =>
              if truthy since
              then since_date <- parse_relative_time_string T time_str ;;
                   Ok (Some since_date)
              else Ok None
            | None => Ok None
            end) as [since_date|e]; [|discriminate].
  destruct (tg (mkfetch_request channel min_id limit since_date))
    as [deliveries failure] eqn:Etg.
  assert (M : is_minimum
                (found_min_id (fold_left (callback verbose) deliveries
                                 (mksession [] None)))
                (processed_ids deliveries))
    by exact (session_after_minimum verbose deliveries).
  destruct failure as [e|].
  - cbn [requests final]. intros E. injection E as <-. rewrite Etg. exact M.
  - destruct (truthy since && verbose);
      [destruct since_date as [d|]; [destruct (astimezone local d)|]|];
      cbn [requests final]; intros E; injection E as <-; rewrite Etg; exact M.
Qed.

Lemma min_observed_id_invariant_witness :
  found_min_id
    (session_after false
       [Processed (mkMessage 50 T0 None "a" "a");
        Errored (mkMessage 51 T0 None "b" "b");
        Processed (mkMessage 48 T0 None "c" "c");
        Processed (mkMessage 52 T0 None "d" "d")])
  = Some 48.
Proof.
  apply (proj1 (proj2 (proj2 (proj2 (proj2
                 (min_observed_id_invariant false)))))).
  reflexivity.
Defined.

(** ** The runs of [fetch] *)




(** The ways [fetch] can go. *)
Lemma fetch_cases local tg now channel min_id limit since verbose :
  let r := fetch local tg now channel min_id limit since verbose in
  (exists e, resolve now since = Raise e
             /\ r = mkrun [] start (BadParameter since e))
  \/ (exists since_date e,
        resolve now since = Ok since_date
        /\ let req := mkfetch_request channel min_id limit since_date in
           snd (tg req) = Some e
           /\ r = mkrun [req] (session_after verbose (fst (tg req)))
                        (Propagated e))
  \/ (exists since_date,
        resolve now since = Ok since_date
        /\ let req := mkfetch_request channel min_id limit since_date in
           let st := session_after verbose (fst (tg req)) in
           snd (tg req) = None
           /\ r = match since_date with
                  | Some d =>
                    if truthy since && verbose
                    then match astimezone local d with
                         | Ok _ =>
                           mkrun [req]
                             (print (SummaryLine d (found_min_id st)) st)
                             Returned
                         | Raise e => mkrun [req] st (Propagated e)
                         end
                    else mkrun [req] st Returned
                  | None =>
                    if truthy since && verbose
                    then mkrun [req] st (Propagated AttributeError)
                    else mkrun [req] st Returned
                  end).
Proof.
  cbv zeta. unfold fetch. fold (resolve now since).
  destruct (resolve now since) as [since_date|e]; [|left; eauto].
  right. unfold session_after, start.
  destruct (tg (mkfetch_request channel min_id limit since_date))
    as [deliveries [e|]] eqn:Etg; cbn [fst snd].
  - left. exists since_date, e. rewrite Etg. cbn [fst snd]. auto.
  - right. exists since_date. rewrite Etg. cbn [fst snd].
    split; [reflexivity|]. split; [reflexivity|].
    destruct (truthy since && verbose), since_date as [d|];
      try destruct (astimezone local d); reflexivity.
Qed.

Lemma resolve_truthy now since since_date :
  resolve now since = Ok since_date ->
  truthy since = true ->
  exists time_str d,
    since = Some time_str /\ since_date = Some d
    /\ parse_relative_time_string now time_str = Ok d.
Proof.
  unfold resolve. intros H Ht. destruct since as [time_str|]; [|discriminate].
  rewrite Ht in H.
  destruct (parse_relative_time_string now time_str) as [d|e] eqn:Ep;
    [|discriminate].
  injection H as <-. exists time_str, d. auto.
Qed.




(** ** Resolution of [--since] *)

Lemma resolve_some now time_str :
  time_str <> EmptyString ->
  resolve now (Some time_str)
  = (since_date <- parse_relative_time_string now time_str ;;
     Ok (Some since_date)).
Proof. intros H. destruct time_str; [contradiction | reflexivity]. Qed.

Lemma fetch_bad_parameter local tg now channel min_id limit time_str verbose
    e :
  time_str <> EmptyString ->
  parse_relative_time_string now time_str = Raise e ->
  fetch local tg now channel min_id limit (Some time_str) verbose
  = mkrun [] start (BadParameter (Some time_str) e).
Proof.
  intros Hne Hp.
  destruct (fetch_cases local tg now channel min_id limit (Some time_str)
              verbose)
    as [(e' & Hr & E) | [(sd & e' & Hr & _) | (sd & Hr & _)]];
    rewrite (resolve_some now time_str Hne), Hp in Hr; cbn [bind] in Hr;
    [|discriminate|discriminate].
  injection Hr as <-. exact E.
Qed.

Lemma fetch_resolved local tg now channel min_id limit time_str verbose d :
  time_str <> EmptyString ->
  parse_relative_time_string now time_str = Ok d ->
  let r := fetch local tg now channel min_id limit (Some time_str) verbose in
  requests r = [mkfetch_request channel min_id limit (Some d)]
  /\ forall since e, ending r <> BadParameter since e.
Proof.
  intros Hne Hp r.
  destruct (fetch_cases local tg now channel min_id limit (Some time_str)
              verbose)
    as [(e' & Hr & E) | [(sd & e' & Hr & _ & E) | (sd & Hr & _ & E)]];
    fold r in E;
    rewrite (resolve_some now time_str Hne), Hp in Hr; cbn [bind] in Hr;
    [discriminate| |]; injection Hr as <-; rewrite E.
  - split; [reflexivity | discriminate].
  - destruct (truthy (Some time_str) && verbose);
      [destruct (astimezone local d)|];
      (split; [reflexivity | discriminate]).
Qed.

Lemma fetch_goes_on local tg now channel min_id limit since verbose
    since_date :
  resolve now since = Ok since_date ->
  forall s e,
    ending (fetch local tg now channel min_id limit since verbose)
    <> BadParameter s e.
Proof.
  intros Hr s e.
  destruct (fetch_cases local tg now channel min_id limit since verbose)
    as [(e' & Hr' & E) | [(sd & e' & _ & _ & E) | (sd & _ & _ & E)]];
    cbv zeta in E; rewrite E.
  - rewrite Hr in Hr'. discriminate.
  - discriminate.
  - destruct sd as [d|], (truthy since && verbose);
      try destruct (astimezone local d); discriminate.
Qed.

(** C4, as amended.  For a string without any (magnitude, unit) token
    the parser returns the current instant and [fetch] raises no
    parameter error.  Whenever the parser does raise, [fetch] raises a
    parameter error that carries the original string and the cause,
    before any request to the collaborator and before anything is
    printed. *)
Theorem no_tokens_resolves_to_now (local : zone) (tg : collaborator)
    (now : datetime) (channel : string) (min_id limit : option Z)
    (time_str : string) (verbose : bool) :
  let r := fetch local tg now channel min_id limit (Some time_str) verbose in
  (* no token: the parser returns the current instant, and fetch goes on *)
  (findall (lower time_str) = [] ->
   parse_relative_time_string now time_str = Ok now
   /\ forall since e, ending r <> BadParameter since e)
  (* the parser raises: a parameter error with the string and the cause,
     no request to the collaborator, nothing printed *)
  /\ (forall e, time_str <> EmptyString ->
        parse_relative_time_string now time_str = Raise e ->
        ending r = BadParameter (Some time_str) e
        /\ requests r = [] /\ stdout (final r) = []).
Proof.
  intros r. split.
  - intros Hno. pose proof (parse_no_tokens now time_str Hno) as Hp.
    split; [exact Hp|].
    apply (fetch_goes_on local tg now channel min_id limit (Some time_str)
             verbose (if truthy (Some time_str) then Some now else None)).
    unfold resolve. rewrite Hp. destruct (truthy (Some time_str)); reflexivity.
  - intros e Hne Hp. subst r.
    rewrite (fetch_bad_parameter local tg now channel min_id limit time_str
               verbose e Hne Hp).
    repeat split.
Qed.

Lemma no_tokens_resolves_to_now_witness :
  parse_relative_time_string T0 "bogus" = Ok T0
  /\ ending (fetch (fixed_zone 3600) (delivering []) T0 "chan" None None
                   (Some "800000d") false)
     = BadParameter (Some "800000d") OverflowError.
Proof.
  split.
  - exact (proj1 (proj1 (no_tokens_resolves_to_now (fixed_zone 3600)
                           (delivering []) T0 "chan" None None "bogus" false)
                        eq_refl)).
  - assert (Hne : "800000d" <> EmptyString) by discriminate.
    assert (Hp : parse_relative_time_string T0 "800000d" = Raise OverflowError)
      by (vm_compute; reflexivity).
    exact (proj1 (proj2 (no_tokens_resolves_to_now (fixed_zone 3600)
                           (delivering []) T0 "chan" None None "800000d"
                           false)
                        OverflowError Hne Hp)).
Defined.

(** C4 as stated fails: for a string without tokens the parser does
    not fail. *)
Lemma no_tokens_error_counterexample :
  ~ (forall now time_str,
       findall (lower time_str) = [] ->
       exists e, parse_relative_time_string now time_str = Raise e).
Proof.
  intros H. destruct (H T0 "bogus" eq_refl) as [e He].
  rewrite (parse_no_tokens T0 "bogus" eq_refl) in He. discriminate.
Qed.

Lemma months_before_raise t n e :
  months_before t n = Raise e <-> out_of_range t n "mo" e.
Proof.
  unfold out_of_range, months_before, MINYEAR, INT_MIN.
  cbn [String.eqb Ascii.eqb Bool.eqb]. cbv zeta.
  set (k := dt_year t * 12 + (dt_month t - 1) - n).
  destruct (Z.ltb_spec (k / 12) (-2147483648)) as [Hmin|Hmin].
  - split.
    + intros H. injection H as <-. right. split; [reflexivity|].
      revert Hmin. Z.div_mod_to_equations. lia.
    + intros [[_ H] | [-> _]]; [|reflexivity].
      exfalso. revert Hmin. Z.div_mod_to_equations. lia.
  - destruct (Z.ltb_spec (k / 12) 1) as [Hlow|Hlow].
    + split.
      * intros H. injection H as <-. left. split; [reflexivity|].
        revert Hmin Hlow. Z.div_mod_to_equations. lia.
      * intros [[-> _] | [_ H]]; [reflexivity|].
        exfalso. revert Hmin. Z.div_mod_to_equations. lia.
    + split; [discriminate|].
      intros [[_ H] | [_ H]]; exfalso; revert Hlow;
        Z.div_mod_to_equations; lia.
Qed.

Lemma microseconds_before_raise t n u e :
  valid_datetime t -> 0 <= n ->
  u = "w" \/ u = "d" \/ u = "h" \/ u = "m" ->
  microseconds_before t (n * unit_microseconds u) = Raise e
  <-> out_of_range t n u e.
Proof.
  intros Vt Hn Hu.
  assert (E : (u =? "mo")%string = false)
    by (destruct Hu as [-> | [-> | [-> | ->]]]; reflexivity).
  unfold out_of_range. rewrite E.
  pose proof (unit_microseconds_nonneg u) as Hu0.
  assert (Hus : 0 <= n * unit_microseconds u) by nia.
  destruct (microseconds_before_cases t _ Vt Hus) as [Hok Hraise].
  destruct (Z.lt_ge_cases (microseconds_of t - n * unit_microseconds u)
              (microseconds_of datetime_min)) as [Hlt|Hge].
  - rewrite (Hraise Hlt). split.
    + intros H. injection H as <-. auto.
    + intros [-> _]. reflexivity.
  - destruct (Hok Hge) as (r & -> & _). split; [discriminate|].
    intros [_ H]. lia.
Qed.

(** What the body of the loop raises: a [ValueError] for a magnitude
    beyond the digit limit, and else what the subtraction raises. *)
Lemma loop_body_raise now tok e :
  valid_datetime now -> is_token tok ->
  loop_body now tok = Raise e
  <-> (within_digit_limit (fst tok) = false /\ e = ValueError)
      \/ (exists n, int (fst tok) = Ok n
                    /\ out_of_range now n (snd tok) e).
Proof.
  intros Vn [Hv Hu]. destruct tok as [v u]. cbn [fst snd] in *.
  destruct (within_digit_limit v) eqn:Hl.
  - destruct (int_magnitude v Hv Hl) as (n & Hn & Hpos).
    assert (G : loop_body now (v, u) = Raise e <-> out_of_range now n u e).
    { destruct Hu as [-> | Hu].
      - rewrite (loop_body_months now v n Vn Hn).
        apply months_before_raise.
      - rewrite (loop_body_fixed now v u n Vn Hn Hu).
        apply (microseconds_before_raise now n u e Vn Hpos Hu). }
    rewrite G. split.
    + intros H. right. exists n. auto.
    + intros [[H _] | (n' & Hn' & H)]; [discriminate H|].
      rewrite Hn in Hn'. injection Hn' as <-. exact H.
  - assert (G : loop_body now (v, u) = Raise ValueError)
      by (unfold loop_body; rewrite (int_too_long v Hl); reflexivity).
    rewrite G. split.
    + intros H. injection H as <-. left. auto.
    + intros [[_ ->] | (n & Hn & _)]; [reflexivity|].
      rewrite (int_too_long v Hl) in Hn. discriminate Hn.
Qed.

Lemma loop_raise toks :
  Forall is_token toks ->
  forall now e, valid_datetime now ->
  loop toks now = Raise e
  <-> exists before tok after now',
        toks = (before ++ tok :: after)%list
        /\ loop before now = Ok now'
        /\ ((within_digit_limit (fst tok) = false /\ e = ValueError)
            \/ (exists n, int (fst tok) = Ok n
                          /\ out_of_range now' n (snd tok) e)).
Proof.
  induction 1 as [|tok toks Htok Htoks IH]; intros now e Vn.
  - split; [discriminate|].
    intros (before & tok & after & now' & E & _).
    destruct before; discriminate E.
  - cbn [loop]. destruct (loop_body now tok) as [now1|e1] eqn:Eb; cbn [bind].
    + destruct (loop_body_le now tok now1 Vn Htok Eb) as [V1 _].
      rewrite (IH now1 e V1). split.
      * intros (before & tok' & after & now' & -> & Hl & Ho).
        exists (tok :: before), tok', after, now'.
        cbn [loop app]. rewrite Eb. cbn [bind]. auto.
      * intros (before & tok' & after & now' & E & Hl & Ho).
        destruct before as [|tok0 before].
        -- cbn [app loop] in E, Hl. injection E as <- <-.
           injection Hl as <-.
           apply (loop_body_raise now tok e Vn Htok) in Ho.
           rewrite Eb in Ho. discriminate Ho.
        -- cbn [app loop] in E, Hl. injection E as <- ->.
           rewrite Eb in Hl. cbn [bind] in Hl.
           exists before, tok', after, now'. auto.
    + split.
      * intros H. injection H as <-.
        exists [], tok, toks, now. split; [reflexivity|].
        split; [reflexivity|].
        exact (proj1 (loop_body_raise now tok e1 Vn Htok) Eb).
      * intros (before & tok' & after & now' & E & Hl & Ho).
        destruct before as [|tok0 before].
        -- cbn [app loop] in E, Hl. injection E as <- <-.
           injection Hl as <-.
           apply (loop_body_raise now tok e Vn Htok) in Ho.
           rewrite Eb in Ho. exact Ho.
        -- cbn [app loop] in E, Hl. injection E as <- ->.
           rewrite Eb in Hl. discriminate Hl.
Qed.

(** C5, as amended.  Every matched magnitude consists of digits only;
    it converts to an integer when it has at most 4300 digits, and a
    longer one is a [ValueError] of [int].  Resolution raises exactly
    when, after the tokens before it have been applied, some token has
    such a magnitude or its subtraction leaves the range of
    representable instants; [fetch] reports this as a parameter error.
    [--since "bogus"] raises no parameter error and resolves to the
    current instant. *)
Theorem resolution_raises_only_out_of_range (now : datetime) :
  valid_datetime now ->
  (* a matched magnitude is made of digits, and converts unless it is
     longer than the digit limit *)
  (forall time_str v u, In (v, u) (findall (lower time_str)) ->
     is_magnitude v
     /\ if within_digit_limit v then exists n, int v = Ok n /\ 0 <= n
        else int v = Raise ValueError)
  (* the parser raises exactly when a magnitude is too long or a
     subtraction leaves the range *)
  /\ (forall time_str e,
        parse_relative_time_string now time_str = Raise e
        <-> exists before tok after now',
              findall (lower time_str) = (before ++ tok :: after)%list
              /\ loop before now = Ok now'
              /\ ((within_digit_limit (fst tok) = false /\ e = ValueError)
                  \/ (exists n, int (fst tok) = Ok n
                                /\ out_of_range now' n (snd tok) e)))
  (* "bogus" is no parameter error and resolves to the current instant *)
  /\ (forall local tg channel min_id limit verbose,
        let r := fetch local tg now channel min_id limit (Some "bogus")
                       verbose in
        parse_relative_time_string now "bogus" = Ok now
        /\ requests r = [mkfetch_request channel min_id limit (Some now)]
        /\ forall since e, ending r <> BadParameter since e)
  (* what the parser raises, fetch reports as a parameter error *)
  /\ (forall local tg channel min_id limit verbose time_str e,
        time_str <> EmptyString ->
        parse_relative_time_string now time_str = Raise e ->
        ending (fetch local tg now channel min_id limit (Some time_str)
                      verbose)
        = BadParameter (Some time_str) e).
Proof.
  intros Vn. split; [|split; [|split]].
  - intros time_str v u Hin.
    destruct (findall_from_tokens _ 0 v u Hin) as [Hv _].
    split; [exact Hv|].
    destruct (within_digit_limit v) eqn:Hl.
    + exact (int_magnitude v Hv Hl).
    + exact (int_too_long v Hl).
  - intros time_str e. unfold parse_relative_time_string.
    exact (loop_raise _ (findall_tokens _) now e Vn).
  - intros local tg channel min_id limit verbose r.
    assert (Hp : parse_relative_time_string now "bogus" = Ok now)
      by exact (parse_no_tokens now "bogus" eq_refl).
    assert (Hne : "bogus" <> EmptyString) by discriminate.
    split; [exact Hp|].
    exact (fetch_resolved local tg now channel min_id limit "bogus" verbose
             now Hne Hp).
  - intros local tg channel min_id limit verbose time_str e Hne Hp.
    rewrite (fetch_bad_parameter local tg now channel min_id limit time_str
               verbose e Hne Hp).
    reflexivity.
Qed.

Lemma resolution_raises_only_out_of_range_witness :
  valid_datetime T0
  /\ (exists n, int "007" = Ok n /\ 0 <= n)
  /\ parse_relative_time_string T0 (over_long_magnitude ++ "d")
     = Raise ValueError
  /\ parse_relative_time_string T0 "1d 30000000000mo" = Raise OverflowError.
Proof.
  assert (V : valid_datetime T0) by valid_now.
  destruct (resolution_raises_only_out_of_range T0 V) as (P1 & P2 & _).
  split; [exact V|]. split; [|split].
  - assert (Hin : In ("007", "mo") (findall (lower "x 007 mo")))
      by (vm_compute; left; reflexivity).
    exact (proj2 (P1 "x 007 mo" "007" "mo" Hin)).
  - apply (proj2 (P2 (over_long_magnitude ++ "d") ValueError)).
    exists [], (over_long_magnitude, "d"), [], T0.
    split; [vm_compute; reflexivity|]. split; [reflexivity|].
    left. split; [vm_compute; reflexivity | reflexivity].
  - apply (proj2 (P2 "1d 30000000000mo" OverflowError)).
    exists [("1", "d")], ("30000000000", "mo"), [],
      (mkdatetime 2024 3 30 12 30 15 123456).
    split; [vm_compute; reflexivity|].
    split; [vm_compute; reflexivity|].
    right. exists 30000000000.
    split; [vm_compute; reflexivity|].
    right. split; [reflexivity | vm_compute; reflexivity].
Defined.

(** C5 as stated fails: resolving "800000d" raises. *)
Lemma resolution_never_raises_counterexample :
  ~ (forall now time_str, valid_datetime now ->
       exists r, parse_relative_time_string now time_str = Ok r).
Proof.
  intros H.
  assert (V : valid_datetime T0) by valid_now.
  destruct (H T0 "800000d" V) as [r Hr].
  assert (E : parse_relative_time_string T0 "800000d" = Raise OverflowError)
    by (vm_compute; reflexivity).
  rewrite E in Hr. discriminate Hr.
Qed.

(** ** Further properties of the scan *)

Lemma isspace_lower_char c : isspace c = true -> lower_char c = c.
Proof.
  destruct c as [[] [] [] [] [] [] [] []]; (reflexivity || discriminate).
Qed.

Lemma lower_spaces ws : all_chars isspace ws = true -> lower ws = ws.
Proof.
  induction ws as [|c ws IH]; cbn [all_chars lower]; intros H; [reflexivity|].
  apply andb_true_iff in H as [Hc Hw].
  rewrite (isspace_lower_char c Hc), (IH Hw). reflexivity.
Qed.

Lemma match_spaces_skip ws tail res :
  all_chars isspace ws = true ->
  match_spaces tail = Some res -> match_spaces (ws ++ tail) = Some res.
Proof.
  intros Hw Ht. induction ws as [|c ws IH]; [exact Ht|].
  cbn [all_chars] in Hw. apply andb_true_iff in Hw as [Hc Hw].
  change (String c ws ++ tail) with (String c (ws ++ tail)).
  cbn [match_spaces]. rewrite Hc, (IH Hw). reflexivity.
Qed.

Lemma match_unit_spaces tail u rest :
  match_unit tail = Some (u, rest) ->
  match_spaces tail = Some (u, rest)
  /\ match tail with String c _ => isdigit c = false | EmptyString => True end.
Proof.
  intros H. destruct tail as [|c tail]; [discriminate H|].
  assert (Hc : isspace c = false /\ isdigit c = false).
  { unfold match_unit in H.
    destruct c as [[] [] [] [] [] [] [] []];
      try discriminate H; split; reflexivity. }
  cbn [match_spaces]. rewrite (proj1 Hc). split; [exact H | exact (proj2 Hc)].
Qed.

Lemma spaces_tail_nondigit ws tail :
  all_chars isspace ws = true ->
  match tail with String c _ => isdigit c = false | EmptyString => True end ->
  match (ws ++ tail)%string with
  | String c _ => isdigit c = false
  | EmptyString => True
  end.
Proof.
  intros Hw Ht. destruct ws as [|c ws]; [exact Ht|].
  cbn [all_chars] in Hw. apply andb_true_iff in Hw as [Hc _].
  exact (isspace_not_digit c Hc).
Qed.

(** A magnitude, white space, a unit: one token. *)
Lemma findall_spaced_token v ws tail u rest :
  is_magnitude v -> all_chars isspace ws = true ->
  match_unit tail = Some (u, rest) ->
  findall (v ++ ws ++ tail) = (v, u) :: findall rest.
Proof.
  intros Hv Hw Hu. destruct (match_unit_spaces tail u rest Hu) as [Hs Hd].
  apply findall_match.
  rewrite (match_here_magnitude v (ws ++ tail) Hv
             (spaces_tail_nondigit ws tail Hw Hd)).
  rewrite (match_spaces_skip ws tail (u, rest) Hw Hs). reflexivity.
Qed.

Lemma findall_expression_app toks s :
  Forall is_token toks ->
  findall (expression toks ++ s) = (toks ++ findall s)%list.
Proof.
  induction 1 as [|tok toks Htok _ IH]; cbn [expression app]; [reflexivity|].
  rewrite append_assoc, (findall_token tok _ Htok), IH. reflexivity.
Qed.

(** X2.  White space between a magnitude and its unit is optional: after
    any tokens, a magnitude followed by white space and then by text
    that starts with a unit gives the same result as without the white
    space. *)
Theorem space_before_unit_is_optional (T : datetime)
    (before : list (string * string)) (v ws tail : string) :
  Forall is_token before ->
  is_magnitude v -> all_chars isspace ws = true ->
  (exists u rest, match_unit (lower tail) = Some (u, rest)) ->
  parse_relative_time_string T (expression before ++ v ++ ws ++ tail)
  = parse_relative_time_string T (expression before ++ v ++ tail).
Proof.
  intros Hb Hv Hw (u & rest & Hu). unfold parse_relative_time_string.
  rewrite !lower_app, (lower_expression before Hb),
    (lower_digits v (proj2 Hv)), (lower_spaces ws Hw).
  rewrite !(findall_expression_app before _ Hb).
  rewrite (findall_spaced_token v ws (lower tail) u rest Hv Hw Hu).
  pose proof (findall_spaced_token v EmptyString (lower tail) u rest Hv
                eq_refl Hu) as E.
  cbn [append] in E. rewrite E. reflexivity.
Qed.

Lemma space_before_unit_is_optional_witness :
  parse_relative_time_string T0 "1w 2   D, 3h"
  = parse_relative_time_string T0 "1w 2D, 3h".
Proof.
  apply (space_before_unit_is_optional T0 [("1", "w")] "2" "   " "D, 3h").
  - repeat constructor; cbn; (discriminate || tauto).
  - split; [discriminate | reflexivity].
  - reflexivity.
  - exists "d", ", 3h". reflexivity.
Defined.

Lemma match_unit_other c rest :
  starts_unit c = false -> match_unit (String c rest) = None.
Proof.
  unfold match_unit.
  destruct c as [[] [] [] [] [] [] [] []];
    (reflexivity || (intros H; discriminate H)).
Qed.

Lemma match_spaces_other ws c rest :
  all_chars isspace ws = true ->
  isspace c = false -> starts_unit c = false ->
  match_spaces (ws ++ String c rest) = None.
Proof.
  intros Hw Hs Hu. induction ws as [|b ws IH].
  - cbn [append match_spaces]. rewrite Hs. exact (match_unit_other c rest Hu).
  - cbn [all_chars] in Hw. apply andb_true_iff in Hw as [Hb Hw].
    change (String b ws ++ String c rest)
      with (String b (ws ++ String c rest)).
    cbn [match_spaces]. rewrite Hb, (IH Hw).
    apply match_unit_other.
    revert Hb. destruct b as [[] [] [] [] [] [] [] []];
      (reflexivity || (intros H; discriminate H)).
Qed.

Lemma match_spaces_end ws :
  all_chars isspace ws = true -> match_spaces ws = None.
Proof.
  induction ws as [|b ws IH]; intros Hw; [reflexivity|].
  cbn [all_chars] in Hw. apply andb_true_iff in Hw as [Hb Hw].
  cbn [match_spaces]. rewrite Hb, (IH Hw).
  apply match_unit_other.
  revert Hb. destruct b as [[] [] [] [] [] [] [] []];
    (reflexivity || (intros H; discriminate H)).
Qed.

(** Digits in front of text that does not start with a digit and on
    which the rest of the pattern fails: the scan passes the digits. *)
Lemma findall_dead_digits v tail :
  all_chars isdigit v = true ->
  match tail with String c _ => isdigit c = false | EmptyString => True end ->
  match_spaces tail = None ->
  findall (v ++ tail) = findall tail.
Proof.
  intros Hd Ht Hs. induction v as [|c v IH]; [reflexivity|].
  cbn [all_chars] in Hd. apply andb_true_iff in Hd as [Hc Hd].
  change (String c v ++ tail) with (String c (v ++ tail)).
  rewrite findall_no_match; [exact (IH Hd)|].
  pose proof (match_here_magnitude (String c v) tail) as M.
  change (String c v ++ tail) with (String c (v ++ tail)) in M.
  rewrite M; [rewrite Hs; reflexivity | | exact Ht].
  split; [discriminate | cbn [all_chars]; rewrite Hc; exact Hd].
Qed.

Lemma nondigit_spaces ws :
  all_chars isspace ws = true -> all_chars nondigit ws = true.
Proof.
  induction ws as [|c ws IH]; cbn [all_chars]; intros H; [reflexivity|].
  apply andb_true_iff in H as [Hc Hw]. unfold nondigit at 1.
  rewrite (isspace_not_digit c Hc), (IH Hw). reflexivity.
Qed.

(** X3.  A magnitude that is not followed by a unit is skipped without
    error: when the text after it (and after optional white space)
    starts with a character that is no digit, no white space and not
    the first letter of a unit, the result is that of the text after
    this character; and a magnitude at the end of the string yields
    the current instant.  So "1y" and "30s" subtract nothing. *)
Theorem unknown_unit_is_skipped (T : datetime) (v ws : string) :
  is_magnitude v -> all_chars isspace ws = true ->
  (* a magnitude followed by something that is no unit *)
  (forall c rest,
     isdigit (lower_char c) = false -> isspace (lower_char c) = false ->
     starts_unit (lower_char c) = false ->
     parse_relative_time_string T (v ++ ws ++ String c rest)
     = parse_relative_time_string T rest)
  (* a magnitude at the end of the string *)
  /\ parse_relative_time_string T (v ++ ws) = Ok T.
Proof.
  intros Hv Hw. split.
  - intros c rest Hd Hs Hu. unfold parse_relative_time_string.
    rewrite !lower_app, (lower_digits v (proj2 Hv)), (lower_spaces ws Hw).
    cbn [lower].
    rewrite (findall_dead_digits v (ws ++ String (lower_char c) (lower rest))
               (proj2 Hv)).
    + rewrite (findall_noise_before ws _ (nondigit_spaces ws Hw)).
      rewrite findall_no_match by (apply match_here_nondigit, Hd).
      reflexivity.
    + exact (spaces_tail_nondigit ws
               (String (lower_char c) (lower rest)) Hw Hd).
    + exact (match_spaces_other ws _ _ Hw Hs Hu).
  - apply parse_no_tokens.
    rewrite lower_app, (lower_digits v (proj2 Hv)), (lower_spaces ws Hw).
    rewrite (findall_dead_digits v ws (proj2 Hv)).
    + exact (findall_noise ws (nondigit_spaces ws Hw)).
    + pose proof (spaces_tail_nondigit ws EmptyString Hw I) as N.
      rewrite append_empty in N. exact N.
    + exact (match_spaces_end ws Hw).
Qed.

Lemma unknown_unit_is_skipped_witness :
  parse_relative_time_string T0 "1y 2d" = parse_relative_time_string T0 " 2d".
Proof.
  assert (Hv : is_magnitude "1") by (split; [discriminate | reflexivity]).
  exact (proj1 (unknown_unit_is_skipped T0 "1" EmptyString Hv eq_refl)
           "y"%char " 2d" eq_refl eq_refl eq_refl).
Defined.

(** ** Further properties of the subtractions *)

Lemma parse_expression T toks :
  Forall is_token toks ->
  parse_relative_time_string T (expression toks) = loop toks T.
Proof.
  intros H. unfold parse_relative_time_string.
  rewrite (lower_expression toks H), (findall_expression toks H).
  reflexivity.
Qed.

Lemma fixed_token_is_token tok : is_fixed_token tok -> is_token tok.
Proof.
  intros [Hv Hu]. split; [exact Hv|]. unfold is_unit. tauto.
Qed.

Lemma fixed_tokens_are_tokens toks :
  Forall is_fixed_token toks -> Forall is_token toks.
Proof. apply Forall_impl. exact fixed_token_is_token. Qed.

Lemma token_microseconds_nonneg tok : 0 <= token_microseconds tok.
Proof.
  unfold token_microseconds. destruct (int (fst tok)) as [n|e] eqn:E; [|lia].
  pose proof (int_nonneg _ _ E).
  pose proof (unit_microseconds_nonneg (snd tok)).
  nia.
Qed.

Lemma tokens_microseconds_nonneg toks : 0 <= tokens_microseconds toks.
Proof.
  induction toks as [|tok toks IH]; cbn [tokens_microseconds]; [lia|].
  pose proof (token_microseconds_nonneg tok). lia.
Qed.

Lemma loop_body_fixed_token now tok :
  valid_datetime now -> is_fixed_token tok -> is_short_token tok ->
  loop_body now tok = microseconds_before now (token_microseconds tok).
Proof.
  intros Vn [Hv Hu] Hl. destruct tok as [v u].
  unfold is_short_token in Hl. cbn [fst snd] in *.
  destruct (int_magnitude v Hv Hl) as (n & Hn & _).
  unfold token_microseconds. cbn [fst snd]. rewrite Hn.
  exact (loop_body_fixed now v u n Vn Hn Hu).
Qed.

Lemma loop_fixed toks :
  Forall is_fixed_token toks -> Forall is_short_token toks ->
  forall now, valid_datetime now ->
  loop toks now = microseconds_before now (tokens_microseconds toks).
Proof.
  induction 1 as [|tok toks Htok _ IH]; intros Hs now Vn;
    cbn [loop tokens_microseconds].
  - symmetry. exact (microseconds_before_zero now Vn).
  - inversion Hs as [|? ? Hl Hs']. subst. specialize (IH Hs').
    rewrite (loop_body_fixed_token now tok Vn Htok Hl).
    rewrite <- (microseconds_before_twice now _ _ Vn
                  (token_microseconds_nonneg tok)
                  (tokens_microseconds_nonneg toks)).
    destruct (microseconds_before now (token_microseconds tok)) as [r|e] eqn:E;
      [|reflexivity].
    cbn [bind]. apply IH. exact (proj1 (microseconds_before_ok _ _ _ E)).
Qed.

(** X4.  Weeks, days, hours and minutes add up: an expression of such
    tokens, each with a magnitude of at most 4300 digits, yields the
    instant that lies the sum of their lengths before [T], and raises
    [OverflowError] exactly when that instant would lie before
    [datetime.min]. *)
Theorem fixed_units_add_up (T : datetime) (toks : list (string * string)) :
  valid_datetime T ->
  Forall is_fixed_token toks -> Forall is_short_token toks ->
  let total := tokens_microseconds toks in
  (microseconds_of datetime_min <= microseconds_of T - total ->
   exists r, parse_relative_time_string T (expression toks) = Ok r
             /\ valid_datetime r
             /\ microseconds_of r = microseconds_of T - total)
  /\ (microseconds_of T - total < microseconds_of datetime_min ->
      parse_relative_time_string T (expression toks) = Raise OverflowError).
Proof.
  intros VT Hf Hs total.
  rewrite (parse_expression T toks (fixed_tokens_are_tokens toks Hf)).
  rewrite (loop_fixed toks Hf Hs T VT). fold total.
  exact (microseconds_before_cases T total VT
           (tokens_microseconds_nonneg toks)).
Qed.

Lemma fixed_units_add_up_witness :
  exists r,
    parse_relative_time_string T0 "2w 3d 4h 30m " = Ok r
    /\ valid_datetime r
    /\ microseconds_of r
       = microseconds_of T0 - (17 * 86400 + 4 * 3600 + 30 * 60) * 1000000.
Proof.
  assert (V : valid_datetime T0) by valid_now.
  assert (F : Forall is_fixed_token
                [("2", "w"); ("3", "d"); ("4", "h"); ("30", "m")]).
  { repeat constructor; cbn; (discriminate || tauto). }
  assert (S : Forall is_short_token
                [("2", "w"); ("3", "d"); ("4", "h"); ("30", "m")])
    by (repeat constructor).
  apply (proj1 (fixed_units_add_up T0 _ V F S)).
  vm_compute. discriminate.
Defined.

Lemma tokens_microseconds_perm toks toks' :
  Permutation toks toks' ->
  tokens_microseconds toks = tokens_microseconds toks'.
Proof.
  induction 1; cbn [tokens_microseconds]; lia.
Qed.

(** X5.  Among weeks, days, hours and minutes neither the order nor the
    choice of unit matters: two expressions of such tokens, each with a
    magnitude of at most 4300 digits, that are permutations of each
    other, or that have the same total length, give the same result. *)
Theorem fixed_units_commute (T : datetime)
    (toks toks' : list (string * string)) :
  valid_datetime T ->
  Forall is_fixed_token toks -> Forall is_short_token toks ->
  Forall is_fixed_token toks' -> Forall is_short_token toks' ->
  Permutation toks toks'
  \/ tokens_microseconds toks = tokens_microseconds toks' ->
  parse_relative_time_string T (expression toks)
  = parse_relative_time_string T (expression toks').
Proof.
  intros VT Hf Hs Hf' Hs' H.
  assert (E : tokens_microseconds toks = tokens_microseconds toks')
    by (destruct H as [P | E]; [exact (tokens_microseconds_perm _ _ P)
                               | exact E]).
  rewrite (parse_expression T toks (fixed_tokens_are_tokens toks Hf)).
  rewrite (parse_expression T toks' (fixed_tokens_are_tokens toks' Hf')).
  rewrite (loop_fixed toks Hf Hs T VT), (loop_fixed toks' Hf' Hs' T VT), E.
  reflexivity.
Qed.

Lemma fixed_units_commute_witness :
  parse_relative_time_string T0 "1w 36h "
  = parse_relative_time_string T0 "720m 8d ".
Proof.
  assert (V : valid_datetime T0) by valid_now.
  apply (fixed_units_commute T0 [("1", "w"); ("36", "h")]
           [("720", "m"); ("8", "d")] V).
  - repeat constructor; cbn; (discriminate || tauto).
  - repeat constructor.
  - repeat constructor; cbn; (discriminate || tauto).
  - repeat constructor.
  - right. reflexivity.
Defined.

Lemma months_before_cases t n :
  valid_datetime t -> 0 <= n ->
  (12 <= month_index t - n ->
   exists r,
     months_before t n = Ok r
     /\ valid_datetime r
     /\ month_index r = month_index t - n
     /\ dt_day r
        = Z.min (dt_day t) (_days_in_month (dt_year r) (dt_month r))
     /\ (dt_hour r, dt_minute r, dt_second r, dt_microsecond r)
        = (dt_hour t, dt_minute t, dt_second t, dt_microsecond t))
  /\ (INT_MIN * 12 <= month_index t - n < 12 ->
      months_before t n = Raise ValueError)
  /\ (month_index t - n < INT_MIN * 12 ->
      months_before t n = Raise OverflowError).
Proof.
  intros Vt Hn. unfold months_before, month_index, MINYEAR, INT_MIN.
  cbv zeta.
  set (k := dt_year t * 12 + (dt_month t - 1) - n).
  pose proof Vt as ((Hy & Hm & Hd) & Hh & Hmi & Hs & Hus).
  unfold MINYEAR, MAXYEAR in *.
  pose proof (Z.mod_pos_bound k 12 ltac:(lia)) as Bk.
  split; [|split]; intros Hk.
  - destruct (Z.ltb_spec (k / 12) (-2147483648)) as [Hlt|_];
      [exfalso; revert Hlt; Z.div_mod_to_equations; lia|].
    destruct (Z.ltb_spec (k / 12) 1) as [Hlt|Hge];
      [exfalso; revert Hlt; Z.div_mod_to_equations; lia|].
    pose proof (days_in_month_range (k / 12) (k mod 12 + 1) ltac:(lia)) as Bd.
    assert (Hhi : k / 12 <= 9999) by (subst k; Z.div_mod_to_equations; lia).
    eexists. split; [reflexivity|].
    cbn [dt_year dt_month dt_day dt_hour dt_minute dt_second dt_microsecond].
    split; [unfold valid_datetime, valid_date, MINYEAR, MAXYEAR;
            cbn [dt_year dt_month dt_day dt_hour dt_minute dt_second
                 dt_microsecond]; lia|].
    split; [Z.div_mod_to_equations; lia|].
    split; [lia | reflexivity].
  - destruct (Z.ltb_spec (k / 12) (-2147483648)) as [Hlt|_];
      [exfalso; revert Hlt; Z.div_mod_to_equations; lia|].
    destruct (Z.ltb_spec (k / 12) 1) as [Hlt|Hge]; [reflexivity|].
    exfalso. revert Hge. Z.div_mod_to_equations. lia.
  - destruct (Z.ltb_spec (k / 12) (-2147483648)) as [Hlt|Hge];
      [reflexivity|].
    exfalso. revert Hge. Z.div_mod_to_equations. lia.
Qed.

Lemma findall_single v u :
  is_token (v, u) -> findall (lower (v ++ u)) = [(v, u)].
Proof.
  intros [Hv Hu]. cbn [fst snd] in *.
  rewrite lower_app, (lower_digits v (proj2 Hv)), (lower_unit u Hu).
  assert (M : match_unit u = Some (u, EmptyString))
    by (destruct Hu as [-> | [-> | [-> | [-> | ->]]]]; reflexivity).
  pose proof (findall_spaced_token v EmptyString u u EmptyString Hv eq_refl M)
    as E.
  cbn [append] in E. exact E.
Qed.

Lemma lower_upper_char c : lower_char (upper_char c) = lower_char c.
Proof. destruct c as [[] [] [] [] [] [] [] []]; reflexivity. Qed.

Lemma lower_upper s : lower (upper s) = lower s.
Proof.
  induction s as [|c s IH]; cbn [lower upper]; [reflexivity|].
  rewrite lower_upper_char, IH. reflexivity.
Qed.

(** X1.  The parser ignores the case of the letters a-z: a string gives
    the same result when these letters are written in upper case, and
    so do two strings that differ only in the case of such letters.
    A unit written in upper case is scanned as that unit, so "1W 2D"
    resolves as "1w 2d" does. *)
Theorem parse_ignores_case (T : datetime) :
  (forall s, parse_relative_time_string T (upper s)
             = parse_relative_time_string T s)
  /\ (forall s1 s2, upper s1 = upper s2 ->
        parse_relative_time_string T s1 = parse_relative_time_string T s2)
  /\ (forall v u, is_token (v, u) ->
        findall (lower (v ++ upper u)) = [(v, u)]).
Proof.
  split; [|split].
  - intros s. unfold parse_relative_time_string.
    rewrite lower_upper. reflexivity.
  - intros s1 s2 E. unfold parse_relative_time_string.
    rewrite <- (lower_upper s1), <- (lower_upper s2), E. reflexivity.
  - intros v u Htok. rewrite lower_app, lower_upper, <- lower_app.
    exact (findall_single v u Htok).
Qed.

Lemma parse_ignores_case_witness :
  parse_relative_time_string T0 "1Mo 2W 3d 4H 30M"
  = parse_relative_time_string T0 "1mO 2w 3D 4h 30m".
Proof.
  apply (proj1 (proj2 (parse_ignores_case T0))). reflexivity.
Defined.

(** X6.  Any number of months: "<n>mo" yields the instant [n] calendar
    months earlier, at the same time of day, on the same day of the
    month or on the last day of a shorter month.  It raises exactly
    when that month lies before January of year 1: a [ValueError] as
    long as its year fits a C [int], an [OverflowError] below that. *)
Theorem months_token (T : datetime) (v : string) (n : Z) :
  valid_datetime T -> is_magnitude v -> int v = Ok n ->
  (12 <= month_index T - n ->
   exists r,
     parse_relative_time_string T (v ++ "mo") = Ok r
     /\ valid_datetime r
     /\ month_index r = month_index T - n
     /\ dt_day r
        = Z.min (dt_day T) (_days_in_month (dt_year r) (dt_month r))
     /\ (dt_hour r, dt_minute r, dt_second r, dt_microsecond r)
        = (dt_hour T, dt_minute T, dt_second T, dt_microsecond T))
  /\ (INT_MIN * 12 <= month_index T - n < 12 ->
      parse_relative_time_string T (v ++ "mo") = Raise ValueError)
  /\ (month_index T - n < INT_MIN * 12 ->
      parse_relative_time_string T (v ++ "mo") = Raise OverflowError).
Proof.
  intros VT Hv Hn. unfold parse_relative_time_string.
  rewrite (findall_single v "mo") by (split; [exact Hv | left; reflexivity]).
  cbn [loop]. rewrite bind_ok, (loop_body_months T v n VT Hn).
  exact (months_before_cases T n VT (int_nonneg v n Hn)).
Qed.

Lemma months_token_witness :
  parse_relative_time_string T0 "30000000000mo" = Raise OverflowError.
Proof.
  assert (V : valid_datetime T0) by valid_now.
  assert (Hv : is_magnitude "30000000000")
    by (split; [discriminate | reflexivity]).
  assert (Hn : int "30000000000" = Ok 30000000000)
    by (vm_compute; reflexivity).
  apply (proj2 (proj2 (months_token T0 "30000000000" 30000000000 V Hv Hn))).
  vm_compute. reflexivity.
Defined.

(** X7.  Months do not add up exactly: subtracting [a] months and then
    [b] months ends in the same month, at the same time of day, as
    subtracting [a + b] months at once, but possibly on an earlier day
    of that month, because the day is clamped twice.  The two raise
    together, and the same exception, unless the first subtraction
    alone fails with a [ValueError] where the sum reaches below the
    years of a C [int]. *)
Theorem months_compose_up_to_clamping (T : datetime) (va vb vc : string)
    (a b : Z) :
  valid_datetime T ->
  is_magnitude va -> is_magnitude vb -> is_magnitude vc ->
  int va = Ok a -> int vb = Ok b -> int vc = Ok (a + b) ->
  match parse_relative_time_string T (expression [(va, "mo"); (vb, "mo")]),
        parse_relative_time_string T (expression [(vc, "mo")]) with
  | Ok r1, Ok r2 =>
    dt_year r1 = dt_year r2 /\ dt_month r1 = dt_month r2
    /\ dt_day r1 <= dt_day r2
    /\ (dt_hour r1, dt_minute r1, dt_second r1, dt_microsecond r1)
       = (dt_hour r2, dt_minute r2, dt_second r2, dt_microsecond r2)
  | Raise e1, Raise e2 =>
    e1 = e2
    \/ (e1 = ValueError /\ e2 = OverflowError
        /\ month_index T - a < 12
        /\ month_index T - (a + b) < INT_MIN * 12)
  | _, _ => False
  end.
Proof.
  intros VT Hva Hvb Hvc Ha Hb Hc.
  pose proof (int_nonneg va a Ha) as Ha0.
  pose proof (int_nonneg vb b Hb) as Hb0.
  assert (U : is_unit "mo") by (left; reflexivity).
  assert (F2 : Forall is_token [(va, "mo"); (vb, "mo")])
    by (constructor; [split; assumption
                     | constructor; [split; assumption | constructor]]).
  assert (F1 : Forall is_token [(vc, "mo")])
    by (constructor; [split; assumption | constructor]).
  rewrite (parse_expression T _ F2), (parse_expression T _ F1).
  cbn [loop]. rewrite !bind_ok.
  rewrite (loop_body_months T va a VT Ha), (loop_body_months T vc _ VT Hc).
  destruct (months_before_cases T a VT Ha0) as (Ok1 & Value1 & Over1).
  destruct (months_before_cases T (a + b) VT ltac:(lia))
    as (Ok2 & Value2 & Over2).
  unfold INT_MIN in *.
  destruct (Z_le_gt_dec 12 (month_index T - a)) as [H1|H1].
  - destruct (Ok1 H1) as (r1 & E1 & V1 & I1 & D1 & Tm1). rewrite E1.
    cbn [bind]. rewrite (loop_body_months r1 vb b V1 Hb).
    destruct (months_before_cases r1 b V1 Hb0) as (Ok3 & Value3 & Over3).
    unfold INT_MIN in *.
    destruct (Z_le_gt_dec 12 (month_index T - (a + b))) as [H2|H2].
    + destruct (Ok2 H2) as (r2 & E2 & V2 & I2 & D2 & Tm2). rewrite E2.
      destruct (Ok3 ltac:(lia)) as (r3 & E3 & V3 & I3 & D3 & Tm3). rewrite E3.
      assert (Ey : dt_year r3 = dt_year r2 /\ dt_month r3 = dt_month r2).
      { destruct V2 as ((_ & M2 & _) & _), V3 as ((_ & M3 & _) & _).
        unfold month_index in *. lia. }
      destruct Ey as [Ey Em]. rewrite Ey, Em in D3.
      split; [exact Ey|]. split; [exact Em|]. split; [lia|].
      rewrite Tm3, Tm1, Tm2. reflexivity.
    + destruct (Z_le_gt_dec (-2147483648 * 12) (month_index T - (a + b)))
        as [H3|H3].
      * rewrite (Value2 ltac:(lia)), (Value3 ltac:(lia)). left. reflexivity.
      * rewrite (Over2 ltac:(lia)), (Over3 ltac:(lia)). left. reflexivity.
  - cbn [bind].
    destruct (Z_le_gt_dec (-2147483648 * 12) (month_index T - a)) as [H3|H3].
    + rewrite (Value1 ltac:(lia)).
      destruct (Z_le_gt_dec (-2147483648 * 12) (month_index T - (a + b)))
        as [H4|H4].
      * rewrite (Value2 ltac:(lia)). left. reflexivity.
      * rewrite (Over2 ltac:(lia)). right. repeat split; lia.
    + rewrite (Over1 ltac:(lia)), (Over2 ltac:(lia)). left. reflexivity.
Qed.

Lemma months_compose_up_to_clamping_witness :
  match parse_relative_time_string T0 "1mo 1mo ",
        parse_relative_time_string T0 "2mo " with
  | Ok r1, Ok r2 =>
    dt_year r1 = dt_year r2 /\ dt_month r1 = dt_month r2
    /\ dt_day r1 <= dt_day r2
    /\ (dt_hour r1, dt_minute r1, dt_second r1, dt_microsecond r1)
       = (dt_hour r2, dt_minute r2, dt_second r2, dt_microsecond r2)
  | Raise e1, Raise e2 =>
    e1 = e2
    \/ (e1 = ValueError /\ e2 = OverflowError
        /\ month_index T0 - 1 < 12
        /\ month_index T0 - (1 + 1) < INT_MIN * 12)
  | _, _ => False
  end.
Proof.
  assert (V : valid_datetime T0) by valid_now.
  assert (M1 : is_magnitude "1") by (split; [discriminate | reflexivity]).
  assert (M2 : is_magnitude "2") by (split; [discriminate | reflexivity]).
  exact (months_compose_up_to_clamping T0 "1" "1" "2" 1 1 V M1 M1 M2
           eq_refl eq_refl eq_refl).
Defined.

Lemma unit_microseconds_minutes u :
  exists q, unit_microseconds u = 60000000 * q.
Proof.
  unfold unit_microseconds.
  destruct (u =? "w")%string; [exists 10080; reflexivity|].
  destruct (u =? "d")%string; [exists 1440; reflexivity|].
  destruct (u =? "h")%string; [exists 60; reflexivity|].
  destruct (u =? "m")%string; [exists 1; reflexivity|].
  exists 0. reflexivity.
Qed.

Lemma seconds_of_microseconds a b q :
  valid_datetime a -> valid_datetime b ->
  microseconds_of a = microseconds_of b - 60000000 * q ->
  dt_second a = dt_second b /\ dt_microsecond a = dt_microsecond b.
Proof.
  intros (_ & _ & _ & Hsa & Hua) (_ & _ & _ & Hsb & Hub).
  unfold microseconds_of. intros E. lia.
Qed.

Lemma loop_body_seconds now tok r :
  valid_datetime now -> is_token tok -> loop_body now tok = Ok r ->
  dt_second r = dt_second now /\ dt_microsecond r = dt_microsecond now.
Proof.
  intros Vn [Hv Hu] H. destruct (loop_body_int now tok r H) as (n & Hn & Hpos).
  destruct tok as [v u]. cbn [fst snd] in *.
  destruct Hu as [-> | Hu].
  - rewrite (loop_body_months now v n Vn Hn) in H.
    unfold months_before in H. cbv zeta in H.
    destruct (_ <? INT_MIN); [discriminate H|].
    destruct (_ <? MINYEAR); [discriminate H|].
    injection H as <-. split; reflexivity.
  - rewrite (loop_body_fixed now v u n Vn Hn Hu) in H.
    apply microseconds_before_ok in H as [Vr E].
    destruct (unit_microseconds_minutes u) as [q Hq].
    apply (seconds_of_microseconds r now (n * q) Vr Vn).
    rewrite E, Hq. lia.
Qed.

Lemma loop_seconds toks :
  Forall is_token toks ->
  forall now r, valid_datetime now -> loop toks now = Ok r ->
  valid_datetime r
  /\ dt_second r = dt_second now /\ dt_microsecond r = dt_microsecond now.
Proof.
  induction 1 as [|tok toks Htok _ IH]; intros now r Vn H; cbn [loop] in H.
  - injection H as <-. auto.
  - destruct (loop_body now tok) as [now'|e] eqn:Eb; [|discriminate H].
    cbn [bind] in H.
    destruct (loop_body_le now tok now' Vn Htok Eb) as [Vn' _].
    destruct (loop_body_seconds now tok now' Vn Htok Eb) as [S1 U1].
    destruct (IH now' r Vn' H) as (Vr & S2 & U2).
    split; [exact Vr|]. split; congruence.
Qed.

(** X8.  What the parser returns is a well-formed datetime with the
    seconds and microseconds of the current instant: every unit is a
    whole number of minutes or of months. *)
Theorem parse_keeps_seconds (T : datetime) (time_str : string)
    (r : datetime) :
  valid_datetime T ->
  parse_relative_time_string T time_str = Ok r ->
  valid_datetime r
  /\ dt_second r = dt_second T /\ dt_microsecond r = dt_microsecond T.
Proof.
  intros VT H. unfold parse_relative_time_string in H.
  exact (loop_seconds _ (findall_tokens _) T r VT H).
Qed.

Lemma parse_keeps_seconds_witness :
  valid_datetime (mkdatetime 2023 2 2 22 31 15 123456)
  /\ 15 = dt_second T0 /\ 123456 = dt_microsecond T0.
Proof.
  apply (parse_keeps_seconds T0 "1mo 3w 5d 13h 59m, 1mo 11mo").
  - valid_now.
  - vm_compute. reflexivity.
Defined.

Lemma unit_microseconds_pos u :
  u = "w" \/ u = "d" \/ u = "h" \/ u = "m" -> 0 < unit_microseconds u.
Proof. intros [-> | [-> | [-> | ->]]]; reflexivity. Qed.

Lemma months_before_zero t : valid_datetime t -> months_before t 0 = Ok t.
Proof.
  intros Vt.
  destruct (months_before_cases t 0 Vt (Z.le_refl 0)) as [H _].
  pose proof Vt as ((Hy & Hm & Hd) & _). unfold MINYEAR, MAXYEAR in *.
  destruct (H ltac:(unfold month_index; lia))
    as (r & E & ((_ & Hmr & _) & _) & I & D & Tm).
  rewrite E. f_equal. unfold month_index in I.
  destruct r as [y1 m1 d1 h1 mi1 s1 us1], t as [y m d h mi s us].
  cbn [dt_year dt_month dt_day dt_hour dt_minute dt_second dt_microsecond]
    in *.
  injection Tm as -> -> -> ->.
  assert (y1 = y) by lia. assert (m1 = m) by lia. subst y1 m1.
  f_equal. lia.
Qed.

Lemma months_before_earlier t n r :
  valid_datetime t -> 0 < n -> months_before t n = Ok r ->
  microseconds_of r < microseconds_of t.
Proof.
  intros Vt Hn E.
  destruct (months_before_cases t n Vt ltac:(lia)) as (HOk & HValue & HOver).
  destruct (Z_le_gt_dec 12 (month_index t - n)) as [Hk|Hk].
  2:{ destruct (Z_le_gt_dec (INT_MIN * 12) (month_index t - n)) as [Hi|Hi];
        [rewrite (HValue ltac:(lia)) in E | rewrite (HOver ltac:(lia)) in E];
        discriminate E. }
  destruct (HOk Hk) as (r' & E' & Vr & I & _). rewrite E' in E.
  injection E as <-.
  pose proof (cmp_microseconds r' t Vr Vt) as C.
  assert (L : _cmp r' t = Lt).
  { destruct Vr as ((_ & Mr & _) & _), Vt as ((_ & Mt & _) & _).
    unfold _cmp, month_index in *.
    destruct (Z.compare_spec (dt_year r') (dt_year t)) as [Ey|Ey|Ey];
      [|reflexivity|lia].
    destruct (Z.compare_spec (dt_month r') (dt_month t)) as [Em|Em|Em];
      [lia|reflexivity|lia]. }
  rewrite L in C. exact C.
Qed.

Lemma loop_body_step now tok n r :
  valid_datetime now -> is_token tok -> int (fst tok) = Ok n ->
  loop_body now tok = Ok r ->
  (n = 0 -> r = now) /\ (0 < n -> microseconds_of r < microseconds_of now).
Proof.
  intros Vn [Hv Hu] Hn H. destruct tok as [v u]. cbn [fst snd] in *.
  destruct Hu as [-> | Hu].
  - rewrite (loop_body_months now v n Vn Hn) in H. split.
    + intros ->. rewrite (months_before_zero now Vn) in H.
      injection H as <-. reflexivity.
    + intros Hpos. exact (months_before_earlier now n r Vn Hpos H).
  - rewrite (loop_body_fixed now v u n Vn Hn Hu) in H. split.
    + intros ->. rewrite Z.mul_0_l, (microseconds_before_zero now Vn) in H.
      injection H as <-. reflexivity.
    + intros Hpos. apply microseconds_before_ok in H as [_ E].
      pose proof (unit_microseconds_pos u Hu). nia.
Qed.

Lemma loop_identity toks :
  Forall is_token toks ->
  forall now r, valid_datetime now -> loop toks now = Ok r ->
  (Forall is_zero_token toks -> r = now)
  /\ (~ Forall is_zero_token toks ->
      microseconds_of r < microseconds_of now).
Proof.
  induction 1 as [|tok toks Htok Htoks IH]; intros now r Vn H;
    cbn [loop] in H.
  - injection H as <-. split; [reflexivity|].
    intros N. exfalso. apply N. constructor.
  - destruct (loop_body now tok) as [now'|e] eqn:Eb; [|discriminate H].
    cbn [bind] in H.
    destruct (loop_body_int now tok now' Eb) as (n & Hn & Hpos).
    destruct (loop_body_le now tok now' Vn Htok Eb) as [Vn' _].
    destruct (loop_body_step now tok n now' Vn Htok Hn Eb) as [Z0 Zpos].
    destruct (IH now' r Vn' H) as [I1 I2].
    destruct (loop_le toks Htoks now' r Vn' H) as [_ Lr].
    destruct (Z.eq_dec n 0) as [->|Hne].
    + rewrite (Z0 eq_refl) in *. split.
      * intros F. apply I1. inversion F; assumption.
      * intros N. apply I2. intros F. apply N. constructor; assumption.
    + split.
      * intros F. inversion F as [|? ? Fz _]. unfold is_zero_token in Fz.
        rewrite Hn in Fz. injection Fz as ->. contradiction.
      * intros _. pose proof (Zpos ltac:(lia)). lia.
Qed.

(** X9.  The parser returns the current instant itself exactly when
    every token has magnitude zero; with any non-zero magnitude the
    result is strictly earlier. *)
Theorem parse_identity_iff_zero (T : datetime) (time_str : string)
    (r : datetime) :
  valid_datetime T ->
  parse_relative_time_string T time_str = Ok r ->
  (Forall is_zero_token (findall (lower time_str)) -> r = T)
  /\ (~ Forall is_zero_token (findall (lower time_str)) -> _cmp r T = Lt).
Proof.
  intros VT H. unfold parse_relative_time_string in H.
  destruct (loop_identity _ (findall_tokens _) T r VT H) as [I1 I2].
  destruct (loop_le _ (findall_tokens _) T r VT H) as [Vr _].
  split; [exact I1|]. intros N. specialize (I2 N).
  pose proof (cmp_microseconds r T Vr VT) as C.
  destruct (_cmp r T); [lia | reflexivity | lia].
Qed.

Lemma parse_identity_iff_zero_witness :
  mkdatetime 2024 3 31 12 30 15 123456 = T0.
Proof.
  assert (V : valid_datetime T0) by valid_now.
  assert (E : parse_relative_time_string T0 "0mo 00w 0 d 0h 000m" = Ok T0)
    by (vm_compute; reflexivity).
  apply (proj1 (parse_identity_iff_zero T0 "0mo 00w 0 d 0h 000m" T0 V E)).
  vm_compute. repeat constructor.
Defined.

(** ** Further properties of [fetch] *)

Lemma callback_stdout verbose st d :
  stdout (callback verbose st d) = (stdout st ++ [line_of verbose d])%list.
Proof.
  destruct d as [msg|msg]; cbn [callback line_of]; [|reflexivity].
  unfold message_processor.
  destruct verbose; cbn [print stdout found_min_id];
    destruct (found_min_id st) as [cur|]; try reflexivity;
    destruct (msg_id msg <? cur); reflexivity.
Qed.

Lemma fold_stdout verbose ds :
  forall st,
  stdout (fold_left (callback verbose) ds st)
  = (stdout st ++ map (line_of verbose) ds)%list.
Proof.
  induction ds as [|d ds IH]; intros st; cbn [fold_left map].
  - rewrite app_nil_r. reflexivity.
  - rewrite IH, callback_stdout, <- app_assoc. reflexivity.
Qed.

Lemma session_after_stdout verbose ds :
  stdout (session_after verbose ds) = map (line_of verbose) ds.
Proof. exact (fold_stdout verbose ds start). Qed.

(** The run of [fetch] once its request is known. *)
Lemma fetch_with_request local tg now channel min_id limit since verbose
    req :
  let r := fetch local tg now channel min_id limit since verbose in
  requests r = [req] ->
  let st := session_after verbose (fst (tg req)) in
  exists since_date,
    resolve now since = Ok since_date
    /\ req = mkfetch_request channel min_id limit since_date
    /\ (r = mkrun [req] st
              (match snd (tg req) with
               | Some e => Propagated e
               | None => Returned
               end)
        \/ (snd (tg req) = None /\ truthy since = true /\ verbose = true
            /\ exists d, since_date = Some d
                 /\ r = match astimezone local d with
                        | Ok _ =>
                          mkrun [req]
                            (print (SummaryLine d (found_min_id st)) st)
                            Returned
                        | Raise e => mkrun [req] st (Propagated e)
                        end)).
Proof.
  intros r Hreq st.
  destruct (fetch_cases local tg now channel min_id limit since verbose)
    as [(e & _ & E) | [(sd & e & Hres & Hfail & E) | (sd & Hres & Hnone & E)]];
    fold r in E; cbv zeta in E.
  - rewrite E in Hreq. discriminate Hreq.
  - cbv zeta in Hfail.
    rewrite E in Hreq. injection Hreq as <-. exists sd.
    split; [exact Hres|]. split; [reflexivity|]. left.
    rewrite Hfail. exact E.
  - cbv zeta in Hnone.
    assert (Er : requests r = [mkfetch_request channel min_id limit sd]).
    { rewrite E. destruct sd as [d|], (truthy since && verbose);
        try destruct (astimezone local d); reflexivity. }
    rewrite Er in Hreq. injection Hreq as <-. exists sd.
    split; [exact Hres|]. split; [reflexivity|].
    destruct (truthy since) eqn:Ht.
    + destruct (resolve_truthy now since sd Hres Ht) as (s & d & _ & -> & _).
      destruct verbose; cbn [andb] in E.
      * right. rewrite Hnone. repeat split. exists d. split; [reflexivity|].
        exact E.
      * left. rewrite Hnone. exact E.
    + left. rewrite Hnone. rewrite E. cbn [andb]. destruct sd; reflexivity.
Qed.

(** X10.  [fetch] prints one line per callback, in delivery order: the
    message line for a processed message, the diagnostic line for a
    failed one; the only other line it can print is one summary line at
    the end. *)
Theorem fetch_prints_one_line_per_callback (verbose : bool) :
  (forall ds, stdout (session_after verbose ds) = map (line_of verbose) ds)
  /\ (forall local tg now channel min_id limit since req,
        let r := fetch local tg now channel min_id limit since verbose in
        requests r = [req] ->
        exists tail,
          stdout (final r)
          = (map (line_of verbose) (fst (tg req)) ++ tail)%list
          /\ (tail = []
              \/ exists since_date min_id',
                   tail = [SummaryLine since_date min_id'])).
Proof.
  split; [exact (session_after_stdout verbose)|].
  intros local tg now channel min_id limit since req r Hreq.
  destruct (fetch_with_request local tg now channel min_id limit since
              verbose req Hreq)
    as (sd & _ & _ & [E | (_ & _ & _ & d & _ & E)]);
    fold r in E; [|destruct (astimezone local d)];
    rewrite E; cbn [final print stdout].
  - exists []. rewrite app_nil_r, session_after_stdout. auto.
  - eexists. rewrite session_after_stdout. split; [reflexivity|].
    right. eauto.
  - exists []. rewrite app_nil_r, session_after_stdout. auto.
Qed.

Lemma fetch_prints_one_line_per_callback_witness :
  exists tail,
    stdout (final (fetch
                     (fixed_zone 3600)
                     (delivering [Processed (mkMessage 7 T0 None "a" "b");
                                  Errored (mkMessage 6 T0 None "c" "d")])
                     T0 "chan" None None None false))
    = ([PlainLine "b"; ErrorLine 6] ++ tail)%list
    /\ (tail = []
        \/ exists since_date min_id', tail = [SummaryLine since_date min_id']).
Proof.
  exact (proj2 (fetch_prints_one_line_per_callback false)
           (fixed_zone 3600)
           (delivering [Processed (mkMessage 7 T0 None "a" "b");
                        Errored (mkMessage 6 T0 None "c" "d")])
           T0 "chan" None None None
           (mkfetch_request "chan" None None None) eq_refl).
Defined.

Lemma message_processor_found_min_id verbose st msg :
  found_min_id (message_processor verbose st msg)
  = match found_min_id st with
    | None => Some (msg_id msg)
    | Some cur => if msg_id msg <? cur then Some (msg_id msg) else Some cur
    end.
Proof.
  unfold message_processor.
  destruct verbose; cbn [print found_min_id stdout];
    destruct (found_min_id st) as [cur|] eqn:F; try reflexivity;
    destruct (msg_id msg <? cur); cbn [found_min_id]; try reflexivity;
    exact F.
Qed.

Lemma callback_found_min_id verbose verbose' st st' d :
  found_min_id st = found_min_id st' ->
  found_min_id (callback verbose st d)
  = found_min_id (callback verbose' st' d).
Proof.
  intros E. destruct d as [msg|msg]; cbn [callback]; [|exact E].
  rewrite !message_processor_found_min_id, E. reflexivity.
Qed.

Lemma fold_found_min_id verbose verbose' ds :
  forall st st',
  found_min_id st = found_min_id st' ->
  found_min_id (fold_left (callback verbose) ds st)
  = found_min_id (fold_left (callback verbose')
                    (filter is_processed ds) st').
Proof.
  induction ds as [|d ds IH]; intros st st' E; cbn [fold_left filter];
    [exact E|].
  destruct d as [msg|msg]; cbn [is_processed fold_left].
  - apply IH. exact (callback_found_min_id verbose verbose' st st' _ E).
  - apply IH. exact E.
Qed.

(** X11.  Messages reported through the error callback do not count for
    the minimum observed identifier, whatever their identifiers, and
    the verbose flag has no influence on it. *)
Theorem failed_messages_do_not_count (verbose verbose' : bool)
    (ds : list delivery) :
  found_min_id (session_after verbose ds)
  = found_min_id (session_after verbose' (filter is_processed ds)).
Proof. exact (fold_found_min_id verbose verbose' ds start start eq_refl). Qed.

Lemma callback_never_raises_found verbose st d :
  match found_min_id st, found_min_id (callback verbose st d) with
  | Some before, Some after => after <= before
  | Some _, None => False
  | None, _ => True
  end.
Proof.
  destruct d as [msg|msg]; cbn [callback].
  - rewrite message_processor_found_min_id.
    destruct (found_min_id st) as [cur|]; [|exact I].
    destruct (Z.ltb_spec (msg_id msg) cur); lia.
  - cbn [error_handler print found_min_id].
    destruct (found_min_id st); [lia | exact I].
Qed.

Lemma fold_never_raises_found verbose ds :
  forall st,
  match found_min_id st, found_min_id (fold_left (callback verbose) ds st) with
  | Some before, Some after => after <= before
  | Some _, None => False
  | None, _ => True
  end.
Proof.
  induction ds as [|d ds IH]; intros st; cbn [fold_left].
  - destruct (found_min_id st); [lia | exact I].
  - pose proof (callback_never_raises_found verbose st d) as C.
    pose proof (IH (callback verbose st d)) as F.
    destruct (found_min_id st) as [a|]; [|exact I].
    destruct (found_min_id (callback verbose st d)) as [b|]; [|contradiction].
    destruct (found_min_id (fold_left (callback verbose) ds
                              (callback verbose st d))) as [c|];
      [lia | contradiction].
Qed.

(** X12.  During a session the minimum observed identifier, once set,
    stays set and never increases. *)
Theorem min_observed_id_only_decreases (verbose : bool)
    (pre post : list delivery) :
  match found_min_id (session_after verbose pre),
        found_min_id (session_after verbose (pre ++ post)%list) with
  | Some before, Some after => after <= before
  | Some _, None => False
  | None, _ => True
  end.
Proof.
  unfold session_after. rewrite fold_left_app.
  exact (fold_never_raises_found verbose post _).
Qed.

(** X13.  Without [--since], or with an empty value, [fetch] does not
    consult the clock: it makes one request without a since-date, never
    raises a parameter error, prints no summary, and its run is the
    same for every current instant. *)
Theorem fetch_without_since (local : zone) (tg : collaborator)
    (channel : string) (min_id limit : option Z) (since : option string)
    (verbose : bool) :
  since = None \/ since = Some EmptyString ->
  forall now,
    let r := fetch local tg now channel min_id limit since verbose in
    let req := mkfetch_request channel min_id limit None in
    requests r = [req]
    /\ r = mkrun [req] (session_after verbose (fst (tg req)))
                 (match snd (tg req) with
                  | Some e => Propagated e
                  | None => Returned
                  end)
    /\ forall now',
         fetch local tg now' channel min_id limit since verbose = r.
Proof.
  intros Hs now r req.
  assert (E : forall t,
             fetch local tg t channel min_id limit since verbose
             = mkrun [req] (session_after verbose (fst (tg req)))
                     (match snd (tg req) with
                      | Some e => Propagated e
                      | None => Returned
                      end)).
  { intros t. subst req. unfold fetch, session_after, start.
    destruct Hs as [-> | ->]; cbn [truthy andb];
      destruct (tg (mkfetch_request channel min_id limit None))
        as [ds [e|]]; reflexivity. }
  subst r. split; [rewrite E; reflexivity|].
  split; [exact (E now)|]. intros now'. rewrite !E. reflexivity.
Qed.

Lemma fetch_without_since_witness :
  fetch (fixed_zone 3600) (delivering []) datetime_min "chan" (Some 5) None
        (Some EmptyString) true
  = fetch (fixed_zone 3600) (delivering []) T0 "chan" (Some 5) None
          (Some EmptyString) true.
Proof.
  exact (proj2 (proj2 (fetch_without_since (fixed_zone 3600) (delivering [])
                         "chan" (Some 5) None (Some EmptyString) true
                         (or_intror eq_refl) T0))
               datetime_min).
Defined.

(** In a zone whose offset is less than a day, [astimezone] is the
    shift by the offset on the time line. *)
Lemma astimezone_local local d :
  valid_datetime d -> -86400 < local d < 86400 ->
  astimezone local d
  = if representable (local_microseconds local d)
    then Ok (of_microseconds (local_microseconds local d))
    else Raise OverflowError.
Proof.
  intros Vd Hs. unfold astimezone, local_microseconds.
  rewrite timedelta_new_normal. cbv zeta.
  set (s := local d) in *. clearbody s.
  set (total := ((0 + 0 * 7) * 86400 + s + 0 * 60 + 0 * 3600) * 1000000 + 0).
  assert (Et : total = s * 1000000) by (subst total; lia).
  assert (Hd : -1 <= total / 86400000000 <= 0)
    by (rewrite Et; Z.div_mod_to_equations; lia).
  assert (Hsec : total / 86400000000 = -1 -> (total / 1000000) mod 86400 <> 0)
    by (rewrite Et; intros H; Z.div_mod_to_equations; lia).
  destruct (Z.ltb_spec 999999999 (Z.abs (total / 86400000000))); [lia|].
  cbn [bind td_days td_seconds td_microseconds].
  destruct (Z.ltb_spec (total / 86400000000) (-1)); [lia|].
  destruct (Z.leb_spec 1 (total / 86400000000)); [lia|].
  cbn [orb].
  assert (C : ((total / 86400000000 =? -1)
               && ((total / 1000000) mod 86400 =? 0)
               && (total mod 1000000 <? 1)) = false).
  { destruct (Z.eqb_spec (total / 86400000000) (-1)) as [E1|]; [|reflexivity].
    destruct (Z.eqb_spec ((total / 1000000) mod 86400) 0) as [E2|];
      [|reflexivity].
    exfalso. exact (Hsec E1 E2). }
  rewrite C. rewrite datetime_add_normal; [|exact Vd|].
  - cbv zeta. unfold total_microseconds.
    cbn [td_days td_seconds td_microseconds].
    replace ((total / 86400000000 * 86400 + (total / 1000000) mod 86400)
             * 1000000 + total mod 1000000) with (s * 1000000)
      by (rewrite Et; Z.div_mod_to_equations; lia).
    reflexivity.
  - unfold valid_timedelta. cbn [td_days td_seconds td_microseconds].
    repeat split; try lia; try (apply Z.mod_pos_bound; lia).
Qed.

(** The run of [fetch] after its request, case by case. *)
Lemma fetch_run local tg now channel min_id limit since verbose req :
  let r := fetch local tg now channel min_id limit since verbose in
  requests r = [req] ->
  let st := session_after verbose (fst (tg req)) in
  exists since_date,
    resolve now since = Ok since_date
    /\ req = mkfetch_request channel min_id limit since_date
    /\ match snd (tg req) with
       | Some e => r = mkrun [req] st (Propagated e)
       | None =>
         if truthy since && verbose then
           exists d,
             since_date = Some d
             /\ r = match astimezone local d with
                    | Ok _ =>
                      mkrun [req]
                        (print (SummaryLine d (found_min_id st)) st)
                        Returned
                    | Raise e => mkrun [req] st (Propagated e)
                    end
         else r = mkrun [req] st Returned
       end.
Proof.
  intros r Hreq st.
  destruct (fetch_cases local tg now channel min_id limit since verbose)
    as [(e & _ & E) | [(sd & e & Hres & Hfail & E) | (sd & Hres & Hnone & E)]];
    fold r in E; cbv zeta in E.
  - rewrite E in Hreq. discriminate Hreq.
  - cbv zeta in Hfail.
    rewrite E in Hreq. injection Hreq as <-. exists sd.
    split; [exact Hres|]. split; [reflexivity|].
    rewrite Hfail. exact E.
  - cbv zeta in Hnone.
    assert (Er : requests r = [mkfetch_request channel min_id limit sd]).
    { rewrite E. destruct sd as [d|], (truthy since && verbose);
        try destruct (astimezone local d); reflexivity. }
    rewrite Er in Hreq. injection Hreq as <-. exists sd.
    split; [exact Hres|]. split; [reflexivity|]. rewrite Hnone.
    destruct (truthy since) eqn:Ht.
    + destruct (resolve_truthy now since sd Hres Ht) as (s & d & _ & -> & _).
      destruct verbose; cbn [andb] in E |- *; [|exact E].
      exists d. split; [reflexivity | exact E].
    + cbn [andb] in E |- *. rewrite E. destruct sd; reflexivity.
Qed.

(** X14.  Once the request is made, [fetch] ends with an exception
    exactly when the collaborator raised it, or when the collaborator
    returned and, with [--since] and [--verbose] given, the since-date
    could not be put into local time for the summary.  The lines of the
    callbacks stay printed and no summary follows them.  In a zone
    whose offset is less than a day the second failure is an
    [OverflowError], and it means that the local time of the since-date
    lies outside [datetime.min] .. [datetime.max]. *)
Theorem fetch_propagates_only_collaborator_failures (local : zone)
    (tg : collaborator) (now : datetime) (channel : string)
    (min_id limit : option Z) (since : option string) (verbose : bool)
    (req : fetch_request) :
  let r := fetch local tg now channel min_id limit since verbose in
  requests r = [req] ->
  (* the exceptions [fetch] ends with *)
  (forall e,
     ending r = Propagated e
     <-> snd (tg req) = Some e
         \/ (snd (tg req) = None /\ truthy since = true /\ verbose = true
             /\ exists d, req_since_date req = Some d
                          /\ astimezone local d = Raise e))
  (* what was printed stays, and no summary follows *)
  /\ (forall e, ending r = Propagated e ->
        stdout (final r) = map (line_of verbose) (fst (tg req)))
  (* the failure of the summary *)
  /\ (valid_datetime now -> within_a_day local ->
      forall e, ending r = Propagated e -> snd (tg req) = None ->
      e = OverflowError
      /\ exists d, req_since_date req = Some d
                   /\ representable (local_microseconds local d) = false).
Proof.
  intros r Hreq.
  destruct (fetch_run local tg now channel min_id limit since verbose req Hreq)
    as (sd & Hres & Ereq & H). fold r in H.
  assert (P1 : forall e,
             ending r = Propagated e
             <-> snd (tg req) = Some e
                 \/ (snd (tg req) = None /\ truthy since = true
                     /\ verbose = true
                     /\ exists d, req_since_date req = Some d
                                  /\ astimezone local d = Raise e)).
  { intros e. destruct (snd (tg req)) as [e'|].
    - rewrite H. cbn [ending]. split.
      + intros G. injection G as ->. left. reflexivity.
      + intros [G | (G & _)]; [injection G as -> | discriminate G].
        reflexivity.
    - destruct (truthy since && verbose) eqn:Hb.
      + apply andb_true_iff in Hb as [Ht Hv].
        destruct H as (d & -> & H). rewrite Ereq. cbn [req_since_date].
        destruct (astimezone local d) as [shown|e'] eqn:Ea;
          rewrite H; cbn [ending]; split.
        * intros G. discriminate G.
        * intros [G | (_ & _ & _ & d' & Ed & G)]; [discriminate G|].
          injection Ed as <-. rewrite Ea in G. discriminate G.
        * intros G. injection G as ->. right.
          split; [reflexivity|]. split; [exact Ht|]. split; [exact Hv|].
          exists d. split; [reflexivity | exact Ea].
        * intros [G | (_ & _ & _ & d' & Ed & G)]; [discriminate G|].
          injection Ed as <-. rewrite Ea in G. injection G as ->.
          reflexivity.
      + rewrite H. cbn [ending]. split; [intros G; discriminate G|].
        intros [G | (_ & Ht & Hv & _)]; [discriminate G|].
        rewrite Ht, Hv in Hb. discriminate Hb. }
  split; [exact P1|]. split.
  - intros e He. destruct (snd (tg req)) as [e'|].
    + rewrite H. cbn [final]. apply session_after_stdout.
    + destruct (truthy since && verbose).
      * destruct H as (d & _ & H).
        destruct (astimezone local d); rewrite H in He |- *;
          [discriminate He|].
        cbn [final]. apply session_after_stdout.
      * rewrite H. cbn [final]. apply session_after_stdout.
  - intros Vn Hz e He Hnone.
    apply P1 in He as [He | (_ & Ht & _ & d & Ed & Ea)];
      [rewrite Hnone in He; discriminate He|].
    rewrite Ereq in Ed. cbn [req_since_date] in Ed. subst sd.
    destruct (resolve_truthy now since (Some d) Hres Ht)
      as (s & d' & _ & Ed & Hp).
    injection Ed as <-. unfold parse_relative_time_string in Hp.
    destruct (loop_le _ (findall_tokens _) now d Vn Hp) as [Vd _].
    rewrite (astimezone_local local d Vd (Hz d)) in Ea.
    destruct (representable (local_microseconds local d)) eqn:R;
      [discriminate Ea|].
    injection Ea as <-. split; [reflexivity|]. exists d.
    rewrite Ereq. split; [reflexivity | exact R].
Qed.

Lemma fetch_propagates_only_collaborator_failures_witness :
  ending (fetch (fixed_zone (-18000)) (delivering []) T0 "chan" None None
                (Some "738975d 10h") true)
  = Propagated OverflowError
  /\ representable (local_microseconds (fixed_zone (-18000))
                      (mkdatetime 1 1 1 2 30 15 123456))
     = false.
Proof.
  set (since_date := mkdatetime 1 1 1 2 30 15 123456).
  assert (Hreq : requests (fetch (fixed_zone (-18000)) (delivering []) T0
                             "chan" None None (Some "738975d 10h") true)
                 = [mkfetch_request "chan" None None (Some since_date)])
    by (vm_compute; reflexivity).
  destruct (fetch_propagates_only_collaborator_failures
              (fixed_zone (-18000)) (delivering []) T0 "chan" None None
              (Some "738975d 10h") true
              (mkfetch_request "chan" None None (Some since_date)) Hreq)
    as (P1 & _ & P3).
  assert (Ea : astimezone (fixed_zone (-18000)) since_date
               = Raise OverflowError) by (vm_compute; reflexivity).
  assert (E : ending (fetch (fixed_zone (-18000)) (delivering []) T0 "chan"
                            None None (Some "738975d 10h") true)
              = Propagated OverflowError).
  { apply (proj2 (P1 OverflowError)). right.
    split; [reflexivity|]. split; [reflexivity|]. split; [reflexivity|].
    exists since_date. split; [reflexivity | exact Ea]. }
  split; [exact E|].
  assert (V : valid_datetime T0) by valid_now.
  assert (Z : within_a_day (fixed_zone (-18000)))
    by (intros t; unfold fixed_zone; lia).
  destruct (P3 V Z OverflowError E eq_refl) as (_ & d & Ed & R).
  injection Ed as <-. exact R.
Defined.

(** X15.  [fetch] either raises a parameter error without making a
    request, or makes exactly one request, with the channel, [min_id]
    and [limit] as given; the request carries no since-date exactly
    when [--since] is absent or empty. *)
Theorem fetch_request_passes_arguments (local : zone) (tg : collaborator)
    (now : datetime) (channel : string) (min_id limit : option Z)
    (since : option string) (verbose : bool) :
  let r := fetch local tg now channel min_id limit since verbose in
  (* a parameter error, and no request *)
  (exists e, resolve now since = Raise e
             /\ ending r = BadParameter since e /\ requests r = [])
  (* or exactly one request, with the arguments as given *)
  \/ (exists since_date,
        resolve now since = Ok since_date
        /\ requests r = [mkfetch_request channel min_id limit since_date]
        /\ (forall s e, ending r <> BadParameter s e)
        /\ (since_date = None <-> truthy since = false)).
Proof.
  intros r.
  destruct (resolve now since) as [sd|e] eqn:Hres.
  - right. exists sd. split; [reflexivity|].
    assert (Hreq : requests r = [mkfetch_request channel min_id limit sd]).
    { destruct (fetch_cases local tg now channel min_id limit since verbose)
        as [(e & Hr & E) | [(sd' & e & Hr & _ & E) | (sd' & Hr & _ & E)]];
        fold r in E; rewrite Hres in Hr; try discriminate Hr;
        injection Hr as <-; rewrite E;
        [reflexivity|].
      destruct sd as [d|], (truthy since && verbose);
        try destruct (astimezone local d); reflexivity. }
    split; [exact Hreq|].
    split; [exact (fetch_goes_on local tg now channel min_id limit since
                     verbose sd Hres)|].
    unfold resolve in Hres. destruct since as [s|]; cbn [truthy].
    + destruct s as [|c s]; cbn [truthy] in *.
      * injection Hres as <-. tauto.
      * destruct (parse_relative_time_string now (String c s));
          [|discriminate Hres].
        injection Hres as <-. split; intros H; discriminate H.
    + injection Hres as <-. tauto.
  - left. exists e. split; [reflexivity|].
    destruct (fetch_cases local tg now channel min_id limit since verbose)
      as [(e' & Hr & E) | [(sd' & e' & Hr & _) | (sd' & Hr & _)]];
      rewrite Hres in Hr; try discriminate Hr.
    injection Hr as <-. fold r in E. rewrite E. split; reflexivity.
Qed.

(** X16.  The verbose flag changes what is printed, and the summary it
    adds can fail; it changes nothing else.  The request and the
    minimum observed identifier are the same with and without it, and
    the command ends in the same way, unless it returns without the
    flag and with the flag fails to put the since-date into local time
    for the summary.  Without a [--since] value it always ends in the
    same way. *)
Theorem verbose_changes_output_only (local : zone) (tg : collaborator)
    (now : datetime) (channel : string) (min_id limit : option Z)
    (since : option string) :
  let quiet := fetch local tg now channel min_id limit since false in
  let loud := fetch local tg now channel min_id limit since true in
  requests quiet = requests loud
  /\ found_min_id (final quiet) = found_min_id (final loud)
  /\ (ending quiet = ending loud
      \/ exists d e,
           resolve now since = Ok (Some d)
           /\ astimezone local d = Raise e
           /\ ending quiet = Returned /\ ending loud = Propagated e)
  /\ (truthy since = false -> ending quiet = ending loud).
Proof.
  cbv zeta. unfold fetch. fold (resolve now since).
  destruct (resolve now since) as [sd|e] eqn:Hres;
    [|repeat split; left; reflexivity].
  destruct (tg (mkfetch_request channel min_id limit sd)) as [ds failure].
  pose proof (fold_found_min_id false true ds start start eq_refl) as F1.
  pose proof (fold_found_min_id true true ds start start eq_refl) as F2.
  assert (F : found_min_id (fold_left (callback false) ds start)
              = found_min_id (fold_left (callback true) ds start))
    by congruence.
  unfold start in F.
  destruct failure as [e|];
    [split; [reflexivity|]; split; [exact F|]; split;
     [left; reflexivity | reflexivity]|].
  rewrite andb_false_r, andb_true_r.
  destruct (truthy since) eqn:Ht;
    [|split; [reflexivity|]; split; [exact F|]; split;
      [left; reflexivity | reflexivity]].
  destruct (resolve_truthy now since sd Hres Ht) as (s & d & _ & -> & _).
  destruct (astimezone local d) as [shown|e] eqn:Ea;
    cbn [requests final ending print found_min_id].
  - split; [reflexivity|]. split; [exact F|].
    split; [left; reflexivity | discriminate].
  - split; [reflexivity|]. split; [exact F|].
    split; [|discriminate]. right. exists d, e. auto.
Qed.

Lemma verbose_changes_output_only_witness :
  ending (fetch (fixed_zone (-18000)) (delivering []) T0 "chan" None None
                None false)
  = ending (fetch (fixed_zone (-18000)) (delivering []) T0 "chan" None None
                  None true).
Proof.
  exact (proj2 (proj2 (proj2 (verbose_changes_output_only
                                (fixed_zone (-18000)) (delivering []) T0
                                "chan" None None None)))
               eq_refl).
Defined.

(** ** The [listen] command *)

(** X17.  [listen] prints one line per incoming message, in the order of
    arrival, and a later message only appends to what was printed for
    the earlier ones. *)
Theorem listen_prints_each_message (tg : listener) (channel : string) :
  listen tg channel
  = map (fun msg => NewMessageLine (msg_message msg)) (tg channel)
  /\ (forall pre post, tg channel = (pre ++ post)%list ->
        listen tg channel
        = (fold_left on_message pre []
           ++ map (fun msg => NewMessageLine (msg_message msg)) post)%list).
Proof.
  assert (G : forall ms out,
             fold_left on_message ms out
             = (out
                ++ map (fun msg => NewMessageLine (msg_message msg)) ms)%list).
  { induction ms as [|m ms IH]; intros out; cbn [fold_left map].
    - rewrite app_nil_r. reflexivity.
    - rewrite IH. unfold on_message. rewrite <- app_assoc. reflexivity. }
  unfold listen. split; [exact (G (tg channel) [])|].
  intros pre post E. rewrite E, fold_left_app. apply G.
Qed.

Lemma listen_prints_each_message_witness :
  listen (fun _ => [mkMessage 1 T0 None "a" "first";
                    mkMessage 2 T0 None "b" "second"]) "chan"
  = ([NewMessageLine "first"] ++ [NewMessageLine "second"])%list.
Proof.
  exact (proj2 (listen_prints_each_message
                  (fun _ => [mkMessage 1 T0 None "a" "first";
                             mkMessage 2 T0 None "b" "second"]) "chan")
           [mkMessage 1 T0 None "a" "first"]
           [mkMessage 2 T0 None "b" "second"] eq_refl).
Defined.

(** ** Unit words and noise between tokens *)

Lemma match_unit_word u word :
  is_unit u ->
  (u = "m" -> forall rest, word <> String "o" rest) ->
  match_unit (u ++ word) = Some (u, word).
Proof.
  intros Hu Hm. destruct Hu as [-> | [-> | [-> | [-> | ->]]]];
    try reflexivity.
  cbn [append]. unfold match_unit.
  destruct word as [|c word]; [reflexivity|].
  specialize (Hm eq_refl word).
  destruct c as [[] [] [] [] [] [] [] []]; try reflexivity.
  contradiction Hm. reflexivity.
Qed.

Lemma findall_between toks noise s :
  Forall is_token toks -> all_chars nondigit noise = true ->
  findall (expression toks ++ noise ++ s) = findall (expression toks ++ s).
Proof.
  intros Ht Hn.
  rewrite !(findall_expression_app toks _ Ht),
    (findall_noise_before noise s Hn).
  reflexivity.
Qed.

(** X18.  Letters after a unit do not matter, so a unit may be written
    as a word ("2 weeks", "5 minutes"), provided that a word for
    minutes does not go on with an "o"; and text without digits between
    two tokens is ignored. *)
Theorem unit_words_and_noise_between_tokens (T : datetime) :
  (* letters after a unit, as in "2 weeks", do not matter *)
  (forall v ws u word,
     is_magnitude v -> all_chars isspace ws = true -> is_unit u ->
     all_chars nondigit word = true ->
     (u = "m" -> forall rest, lower word <> String "o" rest) ->
     parse_relative_time_string T (v ++ ws ++ u ++ word)
     = parse_relative_time_string T (v ++ u))
  (* nor does text without digits between two tokens *)
  /\ (forall toks noise s,
        Forall is_token toks -> all_chars nondigit noise = true ->
        parse_relative_time_string T (expression toks ++ noise ++ s)
        = parse_relative_time_string T (expression toks ++ s)).
Proof.
  split.
  - intros v ws u word Hv Hw Hu Hn Hm. unfold parse_relative_time_string.
    rewrite (findall_single v u (conj Hv Hu)).
    rewrite !lower_app, (lower_digits v (proj2 Hv)), (lower_spaces ws Hw),
      (lower_unit u Hu).
    rewrite (findall_spaced_token v ws (u ++ lower word) u (lower word) Hv Hw
               (match_unit_word u (lower word) Hu Hm)).
    rewrite findall_noise by (rewrite nondigit_lower; exact Hn).
    reflexivity.
  - intros toks noise s Ht Hn. unfold parse_relative_time_string.
    rewrite !lower_app, (lower_expression toks Ht).
    rewrite (findall_between toks (lower noise) (lower s) Ht)
      by (rewrite nondigit_lower; exact Hn).
    reflexivity.
Qed.

Lemma unit_words_and_noise_between_tokens_witness :
  parse_relative_time_string T0 "2 weeks" = parse_relative_time_string T0 "2w"
  /\ parse_relative_time_string T0 "1w and 2d"
     = parse_relative_time_string T0 "1w 2d".
Proof.
  assert (Hv : is_magnitude "2") by (split; [discriminate | reflexivity]).
  assert (Hu : is_unit "w") by (right; left; reflexivity).
  assert (Hm : "w" = "m" -> forall rest, lower "eeks" <> String "o" rest)
    by (intros H; discriminate H).
  assert (Ht : Forall is_token [("1", "w")]).
  { constructor; [|constructor].
    split; [split; [discriminate | reflexivity] | exact Hu]. }
  split.
  - exact (proj1 (unit_words_and_noise_between_tokens T0) "2" " " "w" "eeks"
             Hv eq_refl Hu eq_refl Hm).
  - exact (proj2 (unit_words_and_noise_between_tokens T0) [("1", "w")]
             "and " "2d" Ht eq_refl).
Defined.
